(** * Logger: the asynchronous buffered sinks [FileOps] and [DataOps]

    A shallow embedding of [src/FileOps.cpp] and [src/DataOps.cpp]: the
    fixed-size record encoding done by [push], the record queue with its
    bulk drain [pop], the watcher loop [keepWatchAndPull], the writer
    [writeToFile], the producer-facing [writeFile]/[appendFile] overloads,
    the path bookkeeping [populateFilePathObj] with its builder setters,
    and the shutdown handshake of the destructor.

    Threads are modelled by interleaving: every lock-protected section of
    the source is one atomic step of the thread that runs it. *)

From Equations Require Import Equations.
From Stdlib Require Import Ascii String ZArith.
From stdpp Require Import base decidable list strings gmap.

Local Open Scope nat_scope.

(** ** Bytes, payloads and records *)

(** The terminator ['\0']. *)
Definition NUL : ascii := Ascii.zero.

(** [std::array<char, 1025>::size()]: 1024 payload bytes and, in the words
    of the source, "one extra byte for null termination". *)
Definition RECORD_SIZE : nat := 1025.

(** [std::array<char, 1025>] is kept as the list of its elements; a
    well-formed one has [RECORD_SIZE] of them. [BufferQ] is the
    [std::queue] of such arrays, front first. *)
Abbreviation Record := (list ascii).
Abbreviation BufferQ := (list (list ascii)).

(** [std::string(const char* )]: the characters before the first
    terminator. A payload is a [std::string_view] over storage that is
    terminated right after its last byte (a [std::string] or a literal, as
    every caller in the repository passes), so [data.data()] read as a C
    string is the payload cut at its first terminator, or all of it. The
    same reading gives the logical content of a record in
    [file << data.data()]. *)
Fixpoint c_str (p : list ascii) : list ascii :=
  match p with
  | [] => []
  | c :: p' => if decide (c = NUL) then [] else c :: c_str p'
  end.

(** [std::copy(data.begin(), data.end(), dataRecord.begin())]: the
    elements of [data] overwrite the array from index 0. (Writing past the
    end of the array is undefined in the source; no call site does it, see
    [split_loop_result].) *)
Definition std_copy (data : list ascii) (dataRecord : Record) : Record :=
  list_inserts 0 data dataRecord.

(** [std::fill(dataRecord.begin() + n, dataRecord.end(), c)]. *)
Definition std_fill (n : nat) (c : ascii) (dataRecord : Record) : Record :=
  take n dataRecord ++ replicate (length dataRecord - n) c.

(** [dataRecord.fill(c)]. *)
Definition array_fill (c : ascii) (dataRecord : Record) : Record :=
  replicate (length dataRecord) c.

(** The local lambda [push] of [FileOps::push] and [DataOps::push]: copy
    the data into the array, zero the rest when the data is shorter than
    the whole array, and enqueue a copy of the array. The array is taken
    by reference, so its new contents are returned with the queue. *)
Definition push_lambda (dataRecord : Record) (data : list ascii) (q : BufferQ)
  : Record * BufferQ :=
  let copied := std_copy data dataRecord in
  let filled :=
    if decide (length data < RECORD_SIZE)
    then std_fill (length data) NUL copied
    else copied in
  (filled, q ++ [filled]).

(** The [while (dataCopy.size() > dataRecord.size())] loop: enqueue
    [dataCopy.substr(0, dataRecord.size() - 1)], clear the array, continue
    with [dataCopy.substr(dataRecord.size())]. It returns the array, the
    rest of [dataCopy] and the queue when the loop is left. *)
Equations? split_loop (dataRecord : Record) (dataCopy : list ascii) (q : BufferQ)
  : Record * list ascii * BufferQ by wf (length dataCopy) lt :=
  split_loop dataRecord dataCopy q with decide (RECORD_SIZE < length dataCopy) => {
    | left _ :=
        split_loop
          (array_fill NUL (push_lambda dataRecord (take (RECORD_SIZE - 1) dataCopy) q).1)
          (drop RECORD_SIZE dataCopy)
          (push_lambda dataRecord (take (RECORD_SIZE - 1) dataCopy) q).2;
    | right _ := (dataRecord, dataCopy, q) }.
Proof. rewrite length_drop. unfold RECORD_SIZE in *. lia. Qed.

(** The block of [push] that runs under [m_DataRecordsMtx]. [uninit] is
    the indeterminate initial content of the local [dataRecord]. The
    payload is a view whose storage is terminated right after the view's
    last byte, so that [std::string dataCopy = data.data()] is
    [c_str data]; [enqueue_view] below is the block for any storage. *)
Definition enqueue (uninit : Record) (data : list ascii) (q : BufferQ) : BufferQ :=
  if decide (RECORD_SIZE < length data) then
    let '(dataRecord, dataCopy, q') := split_loop uninit (c_str data) q in
    if decide (dataCopy = []) then q'
    else (push_lambda dataRecord dataCopy q').2
  else (push_lambda uninit data q).2.

(** The same block for a view [data] whose storage goes on with the bytes
    [tail] after the view's last byte. The tests and the short branch use
    the view ([data.size()], [data.begin()], [data.end()]); the long
    branch builds [dataCopy] from the pointer [data.data()] alone, which
    reads the storage up to its first terminator, past the end of the
    view when the view holds none. (Storage without any terminator makes
    that read undefined in the source; here it stops where [tail]
    ends.) *)
Definition enqueue_view (uninit : Record) (data tail : list ascii) (q : BufferQ) : BufferQ :=
  if decide (RECORD_SIZE < length data) then
    let '(dataRecord, dataCopy, q') := split_loop uninit (c_str (data ++ tail)) q in
    if decide (dataCopy = []) then q'
    else (push_lambda dataRecord dataCopy q').2
  else (push_lambda uninit data q).2.

(** A payload of at most the array size, padded with terminators to a
    whole array. *)
Definition padded (data : list ascii) : Record :=
  data ++ replicate (RECORD_SIZE - length data) NUL.

(** The payload bytes a record holds: its cells before the first zero
    cell, all of them when it has none; and those of a sequence of
    records, one after the other. For a record that holds a zero cell
    this is what the writer's [file << data.data()] reads out of it; for
    one that holds none the writer reads on past the array, which nothing
    here describes. *)
Definition trimmed (records : BufferQ) : list ascii :=
  mjoin (c_str <$> records).

(** A payload of 2050 bytes: 1024 times [a], one [b], 1025 times [c]. *)
Definition payload_2050 : list ascii :=
  replicate 1024 "a"%char ++ ["b"%char] ++ replicate 1025 "c"%char.

(** A payload of 1025 bytes. *)
Definition payload_1025 : list ascii := replicate 1025 "a"%char.

(** The queue length at which [push] raises [m_dataReady]. *)
Definition THRESHOLD : nat := 256.

(** [std::bitset<N>(data).to_string()]: [N] characters, most significant
    bit first. *)
Definition bitset_to_string (N : nat) (data : Z) : list ascii :=
  (fun i => if Z.testbit data (Z.of_nat i) then "1"%char else "0"%char)
    <$> reverse (seq 0 N).

(** ** Exceptions and outcomes of a call *)

Inductive exception : Type :=
| runtime_error (what : string).

(** [std::exception_ptr]; [None] is the null pointer. *)
Abbreviation exception_ptr := (option exception).

(** A call on an object of state [St] returns a value, leaves by an
    exception, or never returns because its thread stays suspended on a
    condition variable whose predicate no other thread makes true. *)
Inductive outcome (St A : Type) : Type :=
| Returns (a : A) (s : St)
| Throws (e : exception) (s : St)
| Blocks (s : St).
Arguments Returns {St A} a s.
Arguments Throws {St A} e s.
Arguments Blocks {St A} s.

Definition M (St A : Type) : Type := St → outcome St A.

#[global] Instance M_ret {St} : MRet (M St) := λ A a s, Returns a s.

#[global] Instance M_bind {St} : MBind (M St) := λ A B f m s,
  match m s with
  | Returns a s' => f a s'
  | Throws e s' => Throws e s'
  | Blocks s' => Blocks s'
  end.

Definition throw {St A} (e : exception) : M St A := λ s, Throws e s.
Definition get {St} : M St St := λ s, Returns s s.
Definition modify {St} (f : St → St) : M St unit := λ s, Returns tt (f s).

(** [for (const auto& x : xs) body(x);] *)
Fixpoint for_each {St A} (body : A → M St unit) (xs : list A) : M St unit :=
  match xs with
  | [] => mret tt
  | x :: xs' => body x ;; for_each body xs'
  end.

(** The state the call ends in, whatever its outcome. *)
Definition final_state {St A} (o : outcome St A) : St :=
  match o with Returns _ s | Throws _ s | Blocks s => s end.

Definition throws {St A} (o : outcome St A) : bool :=
  match o with Throws _ _ => true | _ => false end.

Definition returns {St A} (o : outcome St A) : bool :=
  match o with Returns _ _ => true | _ => false end.

(** ** The operating system as the sinks see it *)

Record OS : Type := mkOS {
  (** the regular files and their contents *)
  files : gmap string (list ascii);
  (** the paths the system refuses to open for writing (missing or
      read-only directory, read-only file, ...) *)
  refused : gset string;
  (** [std::filesystem::current_path().string()] *)
  current_path : string;
  (** what [std::this_thread::get_id()] prints in a writer thread *)
  this_thread_id : string
}.

(** [std::filesystem::exists]. *)
Definition fs_exists (file : string) (os : OS) : bool :=
  bool_decide (is_Some (files os !! file)).

(** Whether a [std::ofstream] on [file] is open after construction. *)
Definition ofstream_is_open (file : string) (os : OS) : bool :=
  bool_decide (file ≠ EmptyString ∧ file ∉ refused os).

(** The effect of a successful [std::ofstream file(path)] (mode
    [out | trunc]) closed at once: an empty file. *)
Definition fs_truncate (file : string) (os : OS) : OS :=
  mkOS (<[file := []]> (files os)) (refused os) (current_path os) (this_thread_id os).

(** The effect of writing [bytes] through a stream opened with
    [out | app | binary]: the file is created when missing. *)
Definition fs_append (file : string) (bytes : list ascii) (os : OS) : OS :=
  mkOS (<[file := default [] (files os !! file) ++ bytes]> (files os))
       (refused os) (current_path os) (this_thread_id os).

(** [std::filesystem::file_size] of a regular file; a missing file has
    none, and the callers test for it first. *)
Definition fs_file_size (file : string) (os : OS) : nat :=
  length (default [] (files os !! file)).

(** Whether a [std::ifstream] on [file] is open after construction, where
    [unreadable] are the paths the system refuses to open for reading: the
    file has to be there. *)
Definition ifstream_is_open (unreadable : gset string) (file : string) (os : OS) : bool :=
  bool_decide (is_Some (files os !! file) ∧ file ∉ unreadable).

(** ** [std::string] helpers used by the path bookkeeping *)

Definition dquote : ascii := ascii_of_nat 34.
Definition backslash : ascii := ascii_of_nat 92.

(** [s.find(c)]; [None] is [npos]. *)
Fixpoint str_find (c : ascii) (s : string) : option nat :=
  match s with
  | EmptyString => None
  | String a s' => if decide (a = c) then Some 0 else S <$> str_find c s'
  end.

(** [s.find_last_of(c)]. *)
Fixpoint str_find_last_of (c : ascii) (s : string) : option nat :=
  match s with
  | EmptyString => None
  | String a s' =>
      match str_find_last_of c s' with
      | Some i => Some (S i)
      | None => if decide (a = c) then Some 0 else None
      end
  end.

(** [s.substr(pos)] for [pos <= s.size()]. *)
Definition substr_from (pos : nat) (s : string) : string :=
  String.substring pos (String.length s) s.

(** [s.substr(0, n)], where [n] may be [npos]. *)
Definition substr_to (n : option nat) (s : string) : string :=
  match n with
  | Some k => String.substring 0 k s
  | None => s
  end.

(** [s.back()] of a non-empty string. *)
Fixpoint str_back (s : string) : option ascii :=
  match s with
  | EmptyString => None
  | String a EmptyString => Some a
  | String _ s' => str_back s'
  end.

(** [os << path]: the path between double quotes, with [std::quoted]'s
    escaping of quotes and backslashes. *)
Fixpoint quoted_body (s : string) : string :=
  match s with
  | EmptyString => EmptyString
  | String a s' =>
      if decide (a = dquote ∨ a = backslash)
      then String backslash (String a (quoted_body s'))
      else String a (quoted_body s')
  end.

Definition quoted (s : string) : string :=
  String dquote (quoted_body s +:+ String dquote EmptyString).

Definition DEFAULT_FILE_EXTN : string := ".txt".
Definition nullString : string := EmptyString.

(** [getSeparator()] on the systems of the second preprocessor branch. *)
Definition getSeparator : string := "/".

(** ** Producers and the consumer of one queue *)

(** The operations on one record queue, each atomic under the queue lock:
    a producer's [push] and the consumer's [pop]. *)
Inductive queue_op : Type :=
| op_push (uninit : Record) (data : list ascii)
| op_pop.

(** The records the pushes of a sequence of operations enqueue, in the
    order of the pushes. *)
Definition pushed_by (op : queue_op) : BufferQ :=
  match op with
  | op_push uninit data => if decide (data = []) then [] else enqueue uninit data []
  | op_pop => []
  end.

Definition pushed (ops : list queue_op) : BufferQ := mjoin (pushed_by <$> ops).

(** ** [FileOps] *)

Module FileOps.

(** The watcher thread between the atomic sections of one iteration of
    [keepWatchAndPull]. *)
Inductive watcher_pc : Type :=
| W_WAIT                      (** in [m_DataRecordsCv.wait] *)
| W_DISPATCH (success : bool) (** [pop] done and the lock released *)
| W_JOIN                      (** writer thread spawned, in [join] *)
| W_CHECK                     (** about to test [m_shutAndExit] *)
| W_EXITED.                   (** [keepWatchAndPull] has returned *)

#[global] Instance watcher_pc_eq_dec : EqDecision watcher_pc.
Proof. solve_decision. Defined.

(** The object: the data members the functions below read or write
    ([m_MaxFileSize] and [m_FileContent] are not among them), and with
    them what the object's threads act on. *)
Record t : Type := mk {
  m_FileName : string;
  m_FilePath : string;
  m_FileExtension : string;
  (** [std::filesystem::path], as its string *)
  m_FilePathObj : string;
  m_DataRecords : BufferQ;
  m_dataReady : bool;
  m_shutAndExit : bool;
  m_isFileOpsRunning : bool;
  (** the static fault list *)
  m_excpPtrVec : list exception_ptr;
  (** whether [m_watcher.joinable()] *)
  m_watcher : bool;
  (** where the thread that runs [keepWatchAndPull] stands *)
  watcher : watcher_pc;
  (** the local [dataq] of [keepWatchAndPull] *)
  dataq : BufferQ;
  (** how often [m_DataRecordsCv] was notified *)
  notified : nat;
  (** the system the object runs on *)
  os : OS
}.

Definition set_m_FileName (v : string) (s : t) : t :=
  mk v (m_FilePath s) (m_FileExtension s) (m_FilePathObj s)
    (m_DataRecords s) (m_dataReady s) (m_shutAndExit s)
    (m_isFileOpsRunning s) (m_excpPtrVec s) (m_watcher s) (watcher s)
    (dataq s) (notified s) (os s).
Definition set_m_FilePath (v : string) (s : t) : t :=
  mk (m_FileName s) v (m_FileExtension s) (m_FilePathObj s)
    (m_DataRecords s) (m_dataReady s) (m_shutAndExit s)
    (m_isFileOpsRunning s) (m_excpPtrVec s) (m_watcher s) (watcher s)
    (dataq s) (notified s) (os s).
Definition set_m_FileExtension (v : string) (s : t) : t :=
  mk (m_FileName s) (m_FilePath s) v (m_FilePathObj s) (m_DataRecords s)
    (m_dataReady s) (m_shutAndExit s) (m_isFileOpsRunning s)
    (m_excpPtrVec s) (m_watcher s) (watcher s) (dataq s) (notified s) (os s).
Definition set_m_FilePathObj (v : string) (s : t) : t :=
  mk (m_FileName s) (m_FilePath s) (m_FileExtension s) v (m_DataRecords s)
    (m_dataReady s) (m_shutAndExit s) (m_isFileOpsRunning s)
    (m_excpPtrVec s) (m_watcher s) (watcher s) (dataq s) (notified s) (os s).
Definition set_m_DataRecords (v : BufferQ) (s : t) : t :=
  mk (m_FileName s) (m_FilePath s) (m_FileExtension s) (m_FilePathObj s) v
    (m_dataReady s) (m_shutAndExit s) (m_isFileOpsRunning s)
    (m_excpPtrVec s) (m_watcher s) (watcher s) (dataq s) (notified s) (os s).
Definition set_m_dataReady (v : bool) (s : t) : t :=
  mk (m_FileName s) (m_FilePath s) (m_FileExtension s) (m_FilePathObj s)
    (m_DataRecords s) v (m_shutAndExit s) (m_isFileOpsRunning s)
    (m_excpPtrVec s) (m_watcher s) (watcher s) (dataq s) (notified s) (os s).
Definition set_m_shutAndExit (v : bool) (s : t) : t :=
  mk (m_FileName s) (m_FilePath s) (m_FileExtension s) (m_FilePathObj s)
    (m_DataRecords s) (m_dataReady s) v (m_isFileOpsRunning s)
    (m_excpPtrVec s) (m_watcher s) (watcher s) (dataq s) (notified s) (os s).
Definition set_m_isFileOpsRunning (v : bool) (s : t) : t :=
  mk (m_FileName s) (m_FilePath s) (m_FileExtension s) (m_FilePathObj s)
    (m_DataRecords s) (m_dataReady s) (m_shutAndExit s) v (m_excpPtrVec s)
    (m_watcher s) (watcher s) (dataq s) (notified s) (os s).
Definition set_m_excpPtrVec (v : list exception_ptr) (s : t) : t :=
  mk (m_FileName s) (m_FilePath s) (m_FileExtension s) (m_FilePathObj s)
    (m_DataRecords s) (m_dataReady s) (m_shutAndExit s)
    (m_isFileOpsRunning s) v (m_watcher s) (watcher s) (dataq s)
    (notified s) (os s).
Definition set_m_watcher (v : bool) (s : t) : t :=
  mk (m_FileName s) (m_FilePath s) (m_FileExtension s) (m_FilePathObj s)
    (m_DataRecords s) (m_dataReady s) (m_shutAndExit s)
    (m_isFileOpsRunning s) (m_excpPtrVec s) v (watcher s) (dataq s)
    (notified s) (os s).
Definition set_watcher (v : watcher_pc) (s : t) : t :=
  mk (m_FileName s) (m_FilePath s) (m_FileExtension s) (m_FilePathObj s)
    (m_DataRecords s) (m_dataReady s) (m_shutAndExit s)
    (m_isFileOpsRunning s) (m_excpPtrVec s) (m_watcher s) v (dataq s)
    (notified s) (os s).
Definition set_dataq (v : BufferQ) (s : t) : t :=
  mk (m_FileName s) (m_FilePath s) (m_FileExtension s) (m_FilePathObj s)
    (m_DataRecords s) (m_dataReady s) (m_shutAndExit s)
    (m_isFileOpsRunning s) (m_excpPtrVec s) (m_watcher s) (watcher s) v
    (notified s) (os s).
Definition set_notified (v : nat) (s : t) : t :=
  mk (m_FileName s) (m_FilePath s) (m_FileExtension s) (m_FilePathObj s)
    (m_DataRecords s) (m_dataReady s) (m_shutAndExit s)
    (m_isFileOpsRunning s) (m_excpPtrVec s) (m_watcher s) (watcher s)
    (dataq s) v (os s).
Definition set_os (v : OS) (s : t) : t :=
  mk (m_FileName s) (m_FilePath s) (m_FileExtension s) (m_FilePathObj s)
    (m_DataRecords s) (m_dataReady s) (m_shutAndExit s)
    (m_isFileOpsRunning s) (m_excpPtrVec s) (m_watcher s) (watcher s)
    (dataq s) (notified s) v.

Definition notify_one : M t unit :=
  modify (λ s, set_notified (S (notified s)) s).

(** The static [fileExists(file)]. *)
Definition fileExists_static (file : string) (o : OS) : bool :=
  if decide (file = EmptyString) then false else fs_exists file o.

(** Modelled from the spec: the member [fileExists()] is defined in
    [FileOps.hpp], which is not among the sources; the spec describes it
    as the destination's "existence/openness check", taken here as the
    static check on the object's own [m_FilePathObj]. *)
Definition fileExists : M t bool :=
  λ s, Returns (fileExists_static (m_FilePathObj s) (os s)) s.

(** The member [createFile()]. *)
Definition createFile : M t bool :=
  present ← fileExists;
  retVal ← (if negb present then
              modify (set_m_isFileOpsRunning true);;
              s ← get;
              if ofstream_is_open (m_FilePathObj s) (os s) then
                modify (set_os (fs_truncate (m_FilePathObj s) (os s)));;
                mret true
              else mret false
            else mret false);
  modify (set_m_isFileOpsRunning false);;
  mret retVal.

(** [populateFilePathObj(fileDetails)]. *)
Definition populateFilePathObj (fileDetails : string * string * string) : M t unit :=
  λ s,
  if m_isFileOpsRunning s then Blocks s else
  let '(d0, d1, d2) := fileDetails in
  let name0 := if decide (d0 = EmptyString) then m_FileName s else d0 in
  let path0 := if decide (d1 = EmptyString) then m_FilePath s else d1 in
  let extn0 := if decide (d2 = EmptyString) then m_FileExtension s else d2 in
  if decide (name0 = EmptyString) then
    Returns tt (set_m_isFileOpsRunning false
                 (set_m_FileExtension extn0 (set_m_FilePath path0 (set_m_FileName name0 s))))
  else
    let '(name1, extn1) :=
      if decide (extn0 = EmptyString) then
        match str_find "." name0 with
        | Some _ =>
            (name0, substr_from (default 0 (str_find_last_of "." name0)) name0)
        | None => (name0 +:+ DEFAULT_FILE_EXTN, DEFAULT_FILE_EXTN)
        end
      else (substr_to (str_find_last_of "." name0) name0 +:+ extn0, extn0) in
    let '(name2, path2) :=
      if decide (path0 = EmptyString) then
        let pathSeparator :=
          match str_find_last_of "/" name1 with
          | Some i => Some i
          | None => str_find_last_of backslash name1
          end in
        match pathSeparator with
        | Some i => (substr_from (i + 1) name1, substr_to (Some (i + 1)) name1)
        | None => (name1, current_path (os s) +:+ getSeparator)
        end
      else if decide (str_back path0 ≠ Some "/"%char ∧ str_back path0 ≠ Some backslash)
      then (name1, path0 +:+ getSeparator)
      else (name1, path0) in
    Returns tt (set_m_isFileOpsRunning false
                 (set_m_FilePathObj (path2 +:+ name2)
                   (set_m_FileExtension extn1 (set_m_FilePath path2 (set_m_FileName name2 s))))).

(** The builder setters. They return [*this]: the object is the state
    the call leaves. *)
Definition setFileName (fileName : string) : M t unit :=
  λ s,
  if decide (fileName = EmptyString ∨ fileName = m_FileName s) then Returns tt s
  else populateFilePathObj (fileName, nullString, nullString) s.

Definition setFilePath (filePath : string) : M t unit :=
  λ s,
  if decide (filePath = EmptyString ∨ filePath = m_FilePath s) then Returns tt s
  else populateFilePathObj (nullString, filePath, nullString) s.

Definition setFileExtension (fileExtension : string) : M t unit :=
  λ s,
  if decide (fileExtension = EmptyString ∨ fileExtension = m_FileExtension s)
  then Returns tt s
  else populateFilePathObj (nullString, nullString, fileExtension) s.

(** [push(data)]: nothing for an empty payload; otherwise the records are
    enqueued under the queue lock and the ready flag is raised when the
    queue then holds exactly [THRESHOLD] records. The call is taken as a
    whole: this is what one call does when no other thread touches the
    queue or the flag between its locked block and the size test and flag
    write that follow it outside the lock, as with one producer while the
    watcher waits. What several producers can do to each other between
    those two parts is not described. *)
Definition push (uninit : Record) (data : list ascii) : M t unit :=
  if decide (data = []) then mret tt
  else
    modify (λ s, set_m_DataRecords (enqueue uninit data (m_DataRecords s)) s);;
    s ← get;
    if decide (length (m_DataRecords s) = THRESHOLD)
    then modify (set_m_dataReady true);; notify_one
    else mret tt.

(** [push(data)] for a view [data] over storage that goes on with [tail]
    (see [enqueue_view]). *)
Definition push_view (uninit : Record) (data tail : list ascii) : M t unit :=
  if decide (data = []) then mret tt
  else
    modify (λ s, set_m_DataRecords (enqueue_view uninit data tail (m_DataRecords s)) s);;
    s ← get;
    if decide (length (m_DataRecords s) = THRESHOLD)
    then modify (set_m_dataReady true);; notify_one
    else mret tt.

(** [pop(data)]: the result and the new content of the out-parameter. *)
Definition pop (data : BufferQ) : M t (bool * BufferQ) :=
  λ s,
  if decide (m_DataRecords s = []) then Returns (false, data) s
  else
    (* BufferQ().swap(data); data.swap(m_DataRecords); *)
    let cleared : BufferQ := [] in
    let '(data', records') := (m_DataRecords s, cleared) in
    Returns (true, data') (set_m_dataReady false (set_m_DataRecords records' s)).

(** [writeFile(std::string_view)]. *)
Definition writeFile (uninit : Record) (data : list ascii) : M t unit :=
  if decide (data = []) then mret tt
  else
    present ← fileExists;
    if negb present then
      created ← createFile;
      if (created : bool) then push uninit data
      else throw (runtime_error "File neither exists nor can be created")
    else push uninit data.

(** The numeric overloads; an unsigned value is a [Z]. *)
Definition writeFile_uint8_t (uninit : Record) (data : Z) : M t unit :=
  writeFile uninit (bitset_to_string 8 data).
Definition writeFile_uint16_t (uninit : Record) (data : Z) : M t unit :=
  writeFile uninit (bitset_to_string 16 data).
Definition writeFile_uint32_t (uninit : Record) (data : Z) : M t unit :=
  writeFile uninit (bitset_to_string 32 data).
Definition writeFile_uint64_t (uninit : Record) (data : Z) : M t unit :=
  writeFile uninit (bitset_to_string 64 data).

Definition appendFile (uninit : Record) (data : list ascii) : M t unit :=
  writeFile uninit data.
Definition appendFile_uint8_t (uninit : Record) (data : Z) : M t unit :=
  writeFile uninit (bitset_to_string 8 data).
Definition appendFile_uint16_t (uninit : Record) (data : Z) : M t unit :=
  writeFile uninit (bitset_to_string 16 data).
Definition appendFile_uint32_t (uninit : Record) (data : Z) : M t unit :=
  writeFile uninit (bitset_to_string 32 data).
Definition appendFile_uint64_t (uninit : Record) (data : Z) : M t unit :=
  writeFile uninit (bitset_to_string 64 data).

(** The vector overloads. *)
Definition appendFile_vector_uint8_t (uninit : Record) (binaryStream : list Z) : M t unit :=
  if negb (bool_decide (binaryStream = []))
  then for_each (writeFile_uint8_t uninit) binaryStream else mret tt.
Definition appendFile_vector_uint16_t (uninit : Record) (binaryStream : list Z) : M t unit :=
  if negb (bool_decide (binaryStream = []))
  then for_each (writeFile_uint16_t uninit) binaryStream else mret tt.
Definition appendFile_vector_uint32_t (uninit : Record) (binaryStream : list Z) : M t unit :=
  if negb (bool_decide (binaryStream = []))
  then for_each (writeFile_uint32_t uninit) binaryStream else mret tt.
Definition appendFile_vector_uint64_t (uninit : Record) (binaryStream : list Z) : M t unit :=
  if negb (bool_decide (binaryStream = []))
  then for_each (writeFile_uint64_t uninit) binaryStream else mret tt.

Definition writeFile_vector_uint8_t (uninit : Record) (binaryStream : list Z) : M t unit :=
  if negb (bool_decide (binaryStream = []))
  then for_each (writeFile_uint8_t uninit) binaryStream else mret tt.
Definition writeFile_vector_uint16_t (uninit : Record) (binaryStream : list Z) : M t unit :=
  if negb (bool_decide (binaryStream = []))
  then for_each (writeFile_uint16_t uninit) binaryStream else mret tt.
Definition writeFile_vector_uint32_t (uninit : Record) (binaryStream : list Z) : M t unit :=
  if negb (bool_decide (binaryStream = []))
  then for_each (writeFile_uint32_t uninit) binaryStream else mret tt.
Definition writeFile_vector_uint64_t (uninit : Record) (binaryStream : list Z) : M t unit :=
  if negb (bool_decide (binaryStream = []))
  then for_each (writeFile_uint64_t uninit) binaryStream else mret tt.

(** What the writer sends to the stream for a batch:
    [file << data.data() << "\n"] for each record, front first. This is
    the output for records that hold a zero cell; for a record that holds
    none [data.data()] is read past the array, and the statements about
    written text are made for batches of records that hold one. *)
Definition newline : ascii := ascii_of_nat 10.

Definition written (dataQueue : BufferQ) : list ascii :=
  mjoin ((λ data, c_str data ++ [newline]) <$> dataQueue).

Definition writing_error (s : t) : string :=
  "WRITING_ERROR : [" +:+ this_thread_id (os s) +:+ "]: File ["
    +:+ quoted (m_FilePathObj s) +:+ "] can not be opened to write data;".

(** [writeToFile(dataQueue, excpPtr)]: the result is the content of the
    two reference parameters on return. The [runtime_error] thrown when
    the file cannot be opened is caught by the function's own
    [catch (...)] and stored through [excpPtr]; nothing leaves the
    function by an exception. *)
Definition writeToFile (dataQueue : BufferQ) (excpPtr : exception_ptr)
  : M t (BufferQ * exception_ptr) :=
  λ s,
  if decide (dataQueue = []) then Returns (dataQueue, excpPtr) s
  else if m_isFileOpsRunning s then Blocks s
  else if ofstream_is_open (m_FilePathObj s) (os s) then
    Returns ([], excpPtr)
      (set_m_isFileOpsRunning false
        (set_os (fs_append (m_FilePathObj s) (written dataQueue) (os s)) s))
  else
    Returns (dataQueue, Some (runtime_error (writing_error s)))
      (set_m_isFileOpsRunning false s).

(** One atomic section of the thread that runs [keepWatchAndPull]. A
    thread that is suspended, or has returned, leaves the state as it
    is. *)
Definition keepWatchAndPull_step (s : t) : t :=
  match watcher s with
  | W_WAIT =>
      if m_dataReady s || m_shutAndExit s then
        match pop (dataq s) s with
        | Returns (success, data) s' =>
            set_watcher (W_DISPATCH success)
              (set_dataq data (final_state (notify_one s')))
        | _ => s
        end
      else s
  | W_DISPATCH success =>
      if success then
        let excpPtr : exception_ptr := None in
        set_watcher W_JOIN (set_m_excpPtrVec (m_excpPtrVec s ++ [excpPtr]) s)
      else set_watcher W_CHECK s
  | W_JOIN =>
      (* the writer thread runs with references to [dataq] and to the
         local [excpPtr], which is null; what it stores there is gone
         with the local *)
      match writeToFile (dataq s) None s with
      | Returns (data, _) s' => set_watcher W_CHECK (set_dataq data s')
      | _ => s
      end
  | W_CHECK =>
      if m_shutAndExit s then set_watcher W_EXITED s else set_watcher W_WAIT s
  | W_EXITED => s
  end.

(** The destructor, in its two sections: raise the shutdown flag and
    notify; then join the watcher, which suspends the owner until
    [keepWatchAndPull] has returned. *)
Definition dtor_signal : M t unit :=
  modify (set_m_shutAndExit true);; notify_one.

Definition dtor_join : M t unit :=
  λ s,
  if m_watcher s then
    if decide (watcher s = W_EXITED) then Returns tt (set_m_watcher false s)
    else Blocks s
  else Returns tt s.

(** Modelled from the spec: the initial value of the flags [m_dataReady],
    [m_shutAndExit] and [m_isFileOpsRunning]. They are default member
    initialisers in [FileOps.hpp], which is not among the sources; the
    spec has a sink start with no batch ready, no shutdown requested and
    no file operation running, as [DataOps()] sets its own flags. *)
Definition initial_flag : bool := false.

(** The constructor: the members as the initialiser list sets them, the
    path resolved, the watcher started. The static fault list starts as
    [{0}], one null pointer. *)
Definition ctor (fileName filePath fileExtension : string) (o : OS) : outcome t unit :=
  populateFilePathObj (fileName, filePath, fileExtension)
    (mk fileName filePath fileExtension EmptyString [] initial_flag initial_flag
        initial_flag [None] true W_WAIT [] 0 o).

(** What the threads around one object do, one event each: a producer's
    call of [writeFile] or [push] as a whole, one section of the watcher
    (see [keepWatchAndPull_step]), the two halves of the destructor. A
    schedule interleaves whole events. This is exact for the destructor
    and the watcher, whose sections are cut where they lock, wait or
    join, and for a producer whose [writeFile] finds the file there, as
    far as the watcher's progress and the files go: such a call is
    [push], which touches only the queue, [m_dataReady] and the
    condition variable. It is not exact for a [writeFile] that reaches
    [createFile], which resets [m_isFileOpsRunning] after its lock is
    released, nor for what the unlocked end of two producers' [push]
    does to [m_dataReady]. *)
Inductive event : Type :=
| ev_writeFile (uninit : Record) (data : list ascii)
| ev_push (uninit : Record) (data : list ascii)
| ev_watcher
| ev_dtor_signal
| ev_dtor_join.

Definition step (s : t) (e : event) : t :=
  match e with
  | ev_writeFile uninit data => final_state (writeFile uninit data s)
  | ev_push uninit data => final_state (push uninit data s)
  | ev_watcher => keepWatchAndPull_step s
  | ev_dtor_signal => final_state (dtor_signal s)
  | ev_dtor_join => final_state (dtor_join s)
  end.

Definition run (schedule : list event) (s : t) : t := foldl step s schedule.

(** Payloads pushed one after the other. *)
Definition push_each (uninit : Record) (payloads : list (list ascii)) (s : t) : t :=
  foldl (λ s data, final_state (push uninit data s)) s payloads.

(** Pushes and drains in some order: the batches the drains handed out,
    oldest first, and the final state. [out] is the consumer's buffer. *)
Fixpoint run_ops (ops : list queue_op) (out : BufferQ) (s : t) : list BufferQ * t :=
  match ops with
  | [] => ([], s)
  | op_push uninit data :: ops' => run_ops ops' out (final_state (push uninit data s))
  | op_pop :: ops' =>
      match pop out s with
      | Returns (true, batch) s' =>
          let '(batches, s'') := run_ops ops' batch s' in (batch :: batches, s'')
      | Returns (false, out') s' => run_ops ops' out' s'
      | _ => ([], s)
      end
  end.

(** *** The file helpers *)

(** The static [isFileEmpty(file)]: [peek()] meets the end of the file at
    once. *)
Definition isFileEmpty (unreadable : gset string) (file : string) (o : OS) : bool :=
  if fileExists_static file o then
    if ifstream_is_open unreadable file o
    then bool_decide (files o !! file = Some [])
    else false
  else false.

(** The static [clearFile(file)]: the result and the system after it. *)
Definition clearFile_static (file : string) (o : OS) : bool * OS :=
  if fileExists_static file o then
    if ofstream_is_open file o then (true, fs_truncate file o) else (false, o)
  else (false, o).

(** The static [createFile(file)]. *)
Definition createFile_static (file : string) (o : OS) : bool * OS :=
  if bool_decide (file = EmptyString) || fileExists_static file o then (false, o)
  else if ofstream_is_open file o then (true, fs_truncate file o)
  else (false, o).

(** The member [getFileSize()]. *)
Definition getFileSize : M t nat :=
  present ← fileExists;
  if (present : bool) then
    s ← get; mret (fs_file_size (m_FilePathObj s) (os s))
  else mret 0.

(** The member [clearFile()]. *)
Definition clearFile : M t bool :=
  λ s,
  if m_isFileOpsRunning s then Blocks s
  else
    (modify (set_m_isFileOpsRunning true);;
     present ← fileExists;
     retVal ← (if (present : bool) then
                 s ← get;
                 if ofstream_is_open (m_FilePathObj s) (os s) then
                   modify (set_os (fs_truncate (m_FilePathObj s) (os s)));;
                   mret true
                 else mret false
               else mret false);
     modify (set_m_isFileOpsRunning false);;
     mret retVal) s.

(** [std::getline] until it fails: the lines of [content], a last line
    without separator included when it is not empty. [line] is what has
    been read of the current line. *)
Fixpoint getlines (line content : list ascii) : list (list ascii) :=
  match content with
  | [] => if decide (line = []) then [] else [line]
  | c :: content' =>
      if decide (c = newline) then line :: getlines [] content'
      else getlines (line ++ [c]) content'
  end.

(** [DataQ], the [std::queue] of shared strings [m_FileContent]. *)
Abbreviation DataQ := (list (list ascii)).

(** One pass through the body of the loop that [readFile] runs while
    records are queued: wait for [m_dataReady] to be down, raise it,
    notify. *)
Definition readFile_raise : M t unit :=
  λ s,
  if m_dataReady s then Blocks s
  else (modify (set_m_dataReady true);; notify_one) s.

(** [readFile()], on the object together with its member
    [m_FileContent], as one call on its own. With records queued the call
    does not return unless the watcher drains them: alone, it raises the
    flag if it was down and stays suspended; what the call and a running
    watcher do to each other from there (the loop tests the queue again
    without the lock and raises the flag once more) is not described, and
    the statements about [readFile] are made for an empty queue. Each
    line is stored through [line.c_str()]. *)
Definition readFile (unreadable : gset string) : M (t * DataQ) unit :=
  λ '(s, m_FileContent),
  if decide (m_FilePathObj s = EmptyString) then
    Throws (runtime_error "File path is empty") (s, m_FileContent)
  else if decide (m_DataRecords s ≠ []) then
    Blocks (final_state (readFile_raise s), m_FileContent)
  else if m_isFileOpsRunning s then Blocks (s, [])
  else if fs_exists (m_FilePathObj s) (os s) then
    if ifstream_is_open unreadable (m_FilePathObj s) (os s) then
      Returns tt
        (set_m_isFileOpsRunning false s,
         c_str <$> getlines [] (default [] (files (os s) !! m_FilePathObj s)))
    else
      Throws (runtime_error ("Failed to open file: " +:+ m_FilePathObj s))
        (set_m_isFileOpsRunning false s, [])
  else Returns tt (set_m_isFileOpsRunning false s, []).

End FileOps.

(** ** [DataOps] *)

Module DataOps.

Record t : Type := mk {
  m_DataRecords : BufferQ;
  m_dataReady : bool;
  m_shutAndExit : bool;
  m_excpPtrVec : list exception_ptr;
  (** how often [m_DataRecordsCv] was notified *)
  notified : nat
}.

Definition set_m_DataRecords (v : BufferQ) (s : t) : t :=
  mk v (m_dataReady s) (m_shutAndExit s) (m_excpPtrVec s) (notified s).
Definition set_m_dataReady (v : bool) (s : t) : t :=
  mk (m_DataRecords s) v (m_shutAndExit s) (m_excpPtrVec s) (notified s).
Definition set_m_shutAndExit (v : bool) (s : t) : t :=
  mk (m_DataRecords s) (m_dataReady s) v (m_excpPtrVec s) (notified s).
Definition set_m_excpPtrVec (v : list exception_ptr) (s : t) : t :=
  mk (m_DataRecords s) (m_dataReady s) (m_shutAndExit s) v (notified s).
Definition set_notified (v : nat) (s : t) : t :=
  mk (m_DataRecords s) (m_dataReady s) (m_shutAndExit s) (m_excpPtrVec s) v.

(** [DataOps()]: an empty queue, both flags false, [m_excpPtrVec(0)]. *)
Definition ctor : t := mk [] false false [] 0.

Definition notify_one : M t unit :=
  modify (λ s, set_notified (S (notified s)) s).

(** [push(data)], the same text as [FileOps::push]. *)
Definition push (uninit : Record) (data : list ascii) : M t unit :=
  if decide (data = []) then mret tt
  else
    modify (λ s, set_m_DataRecords (enqueue uninit data (m_DataRecords s)) s);;
    s ← get;
    if decide (length (m_DataRecords s) = THRESHOLD)
    then modify (set_m_dataReady true);; notify_one
    else mret tt.

(** [push(data)] for a view [data] over storage that goes on with [tail]
    (see [enqueue_view]). *)
Definition push_view (uninit : Record) (data tail : list ascii) : M t unit :=
  if decide (data = []) then mret tt
  else
    modify (λ s, set_m_DataRecords (enqueue_view uninit data tail (m_DataRecords s)) s);;
    s ← get;
    if decide (length (m_DataRecords s) = THRESHOLD)
    then modify (set_m_dataReady true);; notify_one
    else mret tt.

(** [pop(data)], the same text as [FileOps::pop]. *)
Definition pop (data : BufferQ) : M t (bool * BufferQ) :=
  λ s,
  if decide (m_DataRecords s = []) then Returns (false, data) s
  else
    let cleared : BufferQ := [] in
    let '(data', records') := (m_DataRecords s, cleared) in
    Returns (true, data') (set_m_dataReady false (set_m_DataRecords records' s)).

Section Sink.

(** The virtual [writeDataTo], which the concrete sink supplies; its
    declaration is in [DataOps.hpp]. *)
Variable writeDataTo : list ascii → M t unit.

Definition write (data : list ascii) : M t unit :=
  if decide (data = []) then mret tt else writeDataTo data.

Definition write_uint8_t (data : Z) : M t unit := write (bitset_to_string 8 data).
Definition write_uint16_t (data : Z) : M t unit := write (bitset_to_string 16 data).
Definition write_uint32_t (data : Z) : M t unit := write (bitset_to_string 32 data).
Definition write_uint64_t (data : Z) : M t unit := write (bitset_to_string 64 data).

Definition append (data : list ascii) : M t unit := write data.
Definition append_uint8_t (data : Z) : M t unit := write (bitset_to_string 8 data).
Definition append_uint16_t (data : Z) : M t unit := write (bitset_to_string 16 data).
Definition append_uint32_t (data : Z) : M t unit := write (bitset_to_string 32 data).
Definition append_uint64_t (data : Z) : M t unit := write (bitset_to_string 64 data).

Definition append_vector_uint8_t (binaryStream : list Z) : M t unit :=
  if negb (bool_decide (binaryStream = []))
  then for_each write_uint8_t binaryStream else mret tt.
Definition append_vector_uint16_t (binaryStream : list Z) : M t unit :=
  if negb (bool_decide (binaryStream = []))
  then for_each write_uint16_t binaryStream else mret tt.
Definition append_vector_uint32_t (binaryStream : list Z) : M t unit :=
  if negb (bool_decide (binaryStream = []))
  then for_each write_uint32_t binaryStream else mret tt.
Definition append_vector_uint64_t (binaryStream : list Z) : M t unit :=
  if negb (bool_decide (binaryStream = []))
  then for_each write_uint64_t binaryStream else mret tt.

Definition write_vector_uint8_t (binaryStream : list Z) : M t unit :=
  if negb (bool_decide (binaryStream = []))
  then for_each write_uint8_t binaryStream else mret tt.
Definition write_vector_uint16_t (binaryStream : list Z) : M t unit :=
  if negb (bool_decide (binaryStream = []))
  then for_each write_uint16_t binaryStream else mret tt.
Definition write_vector_uint32_t (binaryStream : list Z) : M t unit :=
  if negb (bool_decide (binaryStream = []))
  then for_each write_uint32_t binaryStream else mret tt.
Definition write_vector_uint64_t (binaryStream : list Z) : M t unit :=
  if negb (bool_decide (binaryStream = []))
  then for_each write_uint64_t binaryStream else mret tt.

End Sink.

Definition push_each (uninit : Record) (payloads : list (list ascii)) (s : t) : t :=
  foldl (λ s data, final_state (push uninit data s)) s payloads.

Fixpoint run_ops (ops : list queue_op) (out : BufferQ) (s : t) : list BufferQ * t :=
  match ops with
  | [] => ([], s)
  | op_push uninit data :: ops' => run_ops ops' out (final_state (push uninit data s))
  | op_pop :: ops' =>
      match pop out s with
      | Returns (true, batch) s' =>
          let '(batches, s'') := run_ops ops' batch s' in (batch :: batches, s'')
      | Returns (false, out') s' => run_ops ops' out' s'
      | _ => ([], s)
      end
  end.

End DataOps.

(** ** Concrete objects used in examples *)

(** A system with no files, in which every non-empty path can be opened. *)
Definition plain_os : OS := mkOS ∅ ∅ "/home/user" "140737".

(** The same system with the log file's path refused. *)
Definition readonly_os : OS :=
  mkOS ∅ {["/home/user/log.txt"%string]} "/home/user" "140737".

(** [FileOps(maxFileSize, "log")] on each of them. *)
Definition plain_sink : FileOps.t :=
  final_state (FileOps.ctor "log" EmptyString EmptyString plain_os).

Definition readonly_sink : FileOps.t :=
  final_state (FileOps.ctor "log" EmptyString EmptyString readonly_os).

(** Some indeterminate content for the local array of [push]. *)
Definition stack_garbage : Record := replicate RECORD_SIZE "?"%char.

(** The object with the named file present and empty, its path refused:
    the destination became unwritable after construction. *)
Definition locked_os : OS :=
  mkOS {["/home/user/log.txt"%string := []]} {["/home/user/log.txt"%string]}
       "/home/user" "140737".

Definition locked_sink : FileOps.t :=
  final_state (FileOps.ctor "log" EmptyString EmptyString locked_os).

(** A schedule in which shutdown is requested while a batch is being
    written: 256 one-byte writes raise the ready flag; the watcher wakes
    and drains them; a producer writes one more payload; the owner starts
    the destructor; the watcher dispatches and writes its batch, tests the
    shutdown flag and returns; the owner's join completes. *)
Definition late_payload : list ascii := ["l"; "a"; "t"; "e"]%char.

Definition mid_batch_schedule : list FileOps.event :=
  replicate THRESHOLD (FileOps.ev_writeFile stack_garbage ["x"%char]) ++
  [FileOps.ev_watcher;
   FileOps.ev_writeFile stack_garbage late_payload;
   FileOps.ev_dtor_signal;
   FileOps.ev_watcher; FileOps.ev_watcher; FileOps.ev_watcher;
   FileOps.ev_dtor_join].

(** A producer has written one byte to the object whose file has become
    unwritable, and the owner has asked for shutdown. *)
Definition unwritable_state : FileOps.t :=
  FileOps.run [FileOps.ev_writeFile stack_garbage ["x"%char];
               FileOps.ev_dtor_signal] locked_sink.

(** ** The claims' vocabulary *)

(** The number a string of binary digits denotes. *)
Definition binary_value (digits : list ascii) : Z :=
  foldl (λ acc c, (2 * acc + (if decide (c = "1"%char) then 1 else 0))%Z) 0%Z digits.

(** The destination file is there or can be created. *)
Definition destination_ready (f : FileOps.t) : bool :=
  FileOps.fileExists_static (FileOps.m_FilePathObj f) (FileOps.os f)
  || ofstream_is_open (FileOps.m_FilePathObj f) (FileOps.os f).

(** The object after [createFile()] has created its file. *)
Definition file_created (f : FileOps.t) : FileOps.t :=
  FileOps.set_m_isFileOpsRunning false
    (FileOps.set_os (fs_truncate (FileOps.m_FilePathObj f) (FileOps.os f))
       (FileOps.set_m_isFileOpsRunning true f)).

(** The object once [writeFile] has made sure of its file: as it was when
    the file is there, with the file created otherwise. *)
Definition ensured (f : FileOps.t) : FileOps.t :=
  if FileOps.fileExists_static (FileOps.m_FilePathObj f) (FileOps.os f)
  then f else file_created f.

(** The record a numeric value of [N] bits becomes. *)
Definition bitset_record (N : nat) (data : Z) : Record :=
  padded (bitset_to_string N data).

(** The line scenario D expects, with its separator. *)
Definition line_of_5 : list ascii :=
  ["0"; "0"; "0"; "0"; "0"; "1"; "0"; "1"]%char ++ [FileOps.newline].

(** A numeric overload [write_N] of [writeFile] enqueues the [N]-digit
    binary text of its argument, as one record, on every object whose
    destination is there or can be created. *)
Definition enqueues_binary_text
    (N : nat) (write_N : Record → Z → M FileOps.t unit) : Prop :=
  ∀ uninit data (f : FileOps.t),
    length uninit = RECORD_SIZE → destination_ready f = true →
    ∃ f',
      write_N uninit data f = Returns tt f' ∧
      FileOps.m_DataRecords f' = FileOps.m_DataRecords f ++ [bitset_record N data] ∧
      trimmed [bitset_record N data] = bitset_to_string N data ∧
      length (bitset_to_string N data) = N ∧
      Forall (λ c, c = "0"%char ∨ c = "1"%char) (bitset_to_string N data) ∧
      binary_value (bitset_to_string N data) = (data mod 2 ^ Z.of_nat N)%Z.

(** A vector overload [write_vector_N] enqueues one such record for each
    element, in the order of the elements. *)
Definition enqueues_each_element
    (N : nat) (write_vector_N : Record → list Z → M FileOps.t unit) : Prop :=
  ∀ uninit binaryStream (f : FileOps.t),
    length uninit = RECORD_SIZE → destination_ready f = true →
    ∃ f',
      write_vector_N uninit binaryStream f = Returns tt f' ∧
      FileOps.m_DataRecords f' =
        FileOps.m_DataRecords f ++ (bitset_record N <$> binaryStream).

(** "Producer-facing calls never fail on I/O grounds; they only fail on
    programmer-error-class conditions (e.g., destination never
    initialized)", for [writeFile]: on an object whose destination path
    has been set, the call does not throw. *)
Definition write_never_fails_on_io : Prop :=
  ∀ uninit data (f : FileOps.t),
    FileOps.m_FilePathObj f ≠ EmptyString →
    throws (FileOps.writeFile uninit data f) = false.

(** ** Vocabulary of the further properties *)

(** How many atomic sections the watcher is away, at most, from leaving
    [keepWatchAndPull] once shutdown is requested. *)
Definition watcher_rank (pc : FileOps.watcher_pc) : nat :=
  match pc with
  | FileOps.W_WAIT => 4
  | FileOps.W_DISPATCH _ => 3
  | FileOps.W_JOIN => 2
  | FileOps.W_CHECK => 1
  | FileOps.W_EXITED => 0
  end.

(** The number of atomic sections the watcher runs in a schedule. *)
Fixpoint watcher_steps (schedule : list FileOps.event) : nat :=
  match schedule with
  | [] => 0
  | FileOps.ev_watcher :: schedule' => S (watcher_steps schedule')
  | _ :: schedule' => watcher_steps schedule'
  end.

(** The text a batch of payloads becomes in the file: each payload and a
    line separator. *)
Definition lines_of (payloads : list (list ascii)) : list ascii :=
  mjoin ((λ payload, payload ++ [FileOps.newline]) <$> payloads).

(** A payload that is one line of text and fits a record with its
    terminator: not empty, shorter than the array, without terminator or
    line separator. *)
Definition line_payload (payload : list ascii) : Prop :=
  payload ≠ [] ∧ length payload < RECORD_SIZE ∧
  (NUL ∉ payload) ∧ (FileOps.newline ∉ payload).

(** A record that holds a zero cell: [data.data()] read as a C string
    ends inside the array. *)
Definition terminated (r : Record) : Prop := NUL ∈ r.

(** A path that ends in a separator. *)
Definition ends_with_separator (path : string) : Prop :=
  str_back path = Some "/"%char ∨ str_back path = Some backslash.

(** An extension of the expected form: a dot and then no further dot. *)
Definition single_extension (extn : string) : Prop :=
  ∃ e, extn = String "."%char e ∧ str_find "."%char e = None.

(** An object whose file details are resolved: the extension has the
    expected form, the name ends in it, the path ends in a separator and
    the path object is the path followed by the name. *)
Definition resolved (f : FileOps.t) : Prop :=
  single_extension (FileOps.m_FileExtension f) ∧
  (∃ stem, FileOps.m_FileName f = stem +:+ FileOps.m_FileExtension f) ∧
  ends_with_separator (FileOps.m_FilePath f) ∧
  FileOps.m_FilePathObj f = FileOps.m_FilePath f +:+ FileOps.m_FileName f.

(** The path as [populateFilePathObj] leaves a path that was given. *)
Definition with_separator (path : string) : string :=
  if decide (str_back path ≠ Some "/"%char ∧ str_back path ≠ Some backslash)
  then path +:+ getSeparator else path.

(** A bare file name: no dot and no separator. *)
Definition bare_name (name : string) : Prop :=
  name ≠ EmptyString ∧ str_find "."%char name = None ∧
  str_find "/"%char name = None ∧ str_find backslash name = None.

(** * Properties *)

(** ** The record encoding *)

Section encoding.

Implicit Types (data dataCopy uninit dataRecord : list ascii) (q : BufferQ).

Lemma std_copy_prefix data dataRecord :
  length data ≤ length dataRecord →
  std_copy data dataRecord = data ++ drop (length data) dataRecord.
Proof.
  intros Hle. unfold std_copy.
  rewrite <- (take_drop (length data) dataRecord) at 1.
  apply list_inserts_0_r. rewrite length_take. lia.
Qed.

Lemma push_lambda_queue dataRecord data q :
  (push_lambda dataRecord data q).2 = q ++ [(push_lambda dataRecord data q).1].
Proof. reflexivity. Qed.

(** The array the lambda enqueues does not depend on what the array
    held before. *)
Lemma push_lambda_record dataRecord data q :
  length dataRecord = RECORD_SIZE → length data ≤ RECORD_SIZE →
  (push_lambda dataRecord data q).1 = padded data.
Proof.
  intros Hrec Hle. unfold push_lambda, padded; cbn [fst].
  rewrite std_copy_prefix by lia.
  destruct (decide (length data < RECORD_SIZE)) as [Hlt | Hge].
  - unfold std_fill. rewrite take_app_length.
    rewrite length_app, length_drop. do 2 f_equal. lia.
  - rewrite drop_ge by lia.
    replace (RECORD_SIZE - length data) with 0 by lia. reflexivity.
Qed.

Lemma padded_length data :
  length data ≤ RECORD_SIZE → length (padded data) = RECORD_SIZE.
Proof. intros. unfold padded. rewrite length_app, length_replicate. lia. Qed.

Lemma split_loop_done dataRecord dataCopy q :
  length dataCopy ≤ RECORD_SIZE →
  split_loop dataRecord dataCopy q = (dataRecord, dataCopy, q).
Proof.
  intros Hle. rewrite split_loop_equation_1.
  destruct (decide (RECORD_SIZE < length dataCopy)); [lia | reflexivity].
Qed.

Lemma split_loop_iterate dataRecord dataCopy q :
  RECORD_SIZE < length dataCopy →
  split_loop dataRecord dataCopy q =
    split_loop
      (array_fill NUL (push_lambda dataRecord (take (RECORD_SIZE - 1) dataCopy) q).1)
      (drop RECORD_SIZE dataCopy)
      (push_lambda dataRecord (take (RECORD_SIZE - 1) dataCopy) q).2.
Proof.
  intros Hlt. rewrite split_loop_equation_1.
  destruct (decide (RECORD_SIZE < length dataCopy)); [reflexivity | lia].
Qed.

(** One turn of the loop on a well-formed array: 1024 bytes go into a
    record, 1025 bytes leave [dataCopy]. *)
Lemma split_loop_turn dataRecord dataCopy q :
  length dataRecord = RECORD_SIZE → RECORD_SIZE < length dataCopy →
  split_loop dataRecord dataCopy q =
    split_loop (replicate RECORD_SIZE NUL) (drop RECORD_SIZE dataCopy)
               (q ++ [padded (take (RECORD_SIZE - 1) dataCopy)]).
Proof.
  intros Hrec Hlt. rewrite split_loop_iterate by done.
  rewrite push_lambda_queue.
  rewrite push_lambda_record by (rewrite ?length_take; unfold RECORD_SIZE in *; lia).
  unfold array_fill. rewrite padded_length; [done |].
  rewrite length_take. unfold RECORD_SIZE. lia.
Qed.

(** The loop hands back a well-formed array and at most an array's worth
    of bytes. *)
Lemma split_loop_result dataRecord dataCopy q :
  length dataRecord = RECORD_SIZE →
  length (split_loop dataRecord dataCopy q).1.1 = RECORD_SIZE ∧
  length (split_loop dataRecord dataCopy q).1.2 ≤ RECORD_SIZE.
Proof.
  funelim (split_loop dataRecord dataCopy q); intros Hrec.
  - match goal with IH : _ → _ ∧ _ |- _ => apply IH end.
    unfold array_fill. rewrite length_replicate.
    rewrite push_lambda_record; [| done | rewrite length_take; unfold RECORD_SIZE; lia].
    apply padded_length. rewrite length_take. unfold RECORD_SIZE. lia.
  - cbn. split; [done | lia].
Qed.

(** The records [push] enqueues do not depend on the indeterminate
    initial content of its local array. *)
Lemma enqueue_uninit uninit uninit' data q :
  length uninit = RECORD_SIZE → length uninit' = RECORD_SIZE →
  enqueue uninit data q = enqueue uninit' data q.
Proof.
  intros Hu Hu'. unfold enqueue.
  destruct (decide (RECORD_SIZE < length data)) as [Hlong | Hshort].
  - destruct (decide (RECORD_SIZE < length (c_str data))) as [Hc | Hc].
    + rewrite (split_loop_turn uninit), (split_loop_turn uninit') by done.
      reflexivity.
    + rewrite !split_loop_done by lia.
      destruct (decide (c_str data = [])); [done |].
      rewrite !push_lambda_queue, !push_lambda_record by lia. reflexivity.
  - rewrite !push_lambda_queue, !push_lambda_record by lia. reflexivity.
Qed.

(** A payload that fits the array becomes one record. *)
Lemma enqueue_short uninit data q :
  length uninit = RECORD_SIZE → length data ≤ RECORD_SIZE →
  enqueue uninit data q = q ++ [padded data].
Proof.
  intros Hu Hle. unfold enqueue.
  destruct (decide (RECORD_SIZE < length data)); [lia |].
  rewrite push_lambda_queue, push_lambda_record by done. reflexivity.
Qed.

(** The loop only appends to the queue it is given. *)
Lemma split_loop_app dataCopy : ∀ dataRecord q,
  split_loop dataRecord dataCopy q =
    ((split_loop dataRecord dataCopy []).1,
     q ++ (split_loop dataRecord dataCopy []).2).
Proof.
  remember (length dataCopy) as n eqn:Hn. revert dataCopy Hn.
  induction n as [n IH] using lt_wf_ind. intros dataCopy -> dataRecord q.
  destruct (decide (RECORD_SIZE < length dataCopy)) as [Hlt | Hge].
  - rewrite (split_loop_iterate dataRecord dataCopy q) by done.
    rewrite (split_loop_iterate dataRecord dataCopy []) by done.
    rewrite !push_lambda_queue. cbn [fst push_lambda].
    set (r := if decide _ then _ else _).
    assert (length (drop RECORD_SIZE dataCopy) < length dataCopy) as Hdec
      by (rewrite length_drop; unfold RECORD_SIZE in *; lia).
    rewrite (IH _ Hdec _ eq_refl (array_fill NUL r) (q ++ [r])).
    rewrite (IH _ Hdec _ eq_refl (array_fill NUL r) ([] ++ [r])).
    cbn [fst snd]. by rewrite <- app_assoc.
  - rewrite !split_loop_done by lia. cbn. by rewrite app_nil_r.
Qed.

Lemma enqueue_app uninit data q :
  enqueue uninit data q = q ++ enqueue uninit data [].
Proof.
  unfold enqueue. destruct (decide (RECORD_SIZE < length data)); [| done].
  rewrite (split_loop_app _ uninit q).
  destruct (split_loop uninit (c_str data) []) as [[dataRecord dataCopy] q'].
  cbn [fst snd]. destruct (decide (dataCopy = [])); [done |].
  rewrite !push_lambda_queue. cbn [fst push_lambda]. by rewrite app_assoc.
Qed.

(** A payload of at most the array size enqueues exactly one record,
    whatever the array held. *)
Lemma enqueue_length_short uninit data q :
  length data ≤ RECORD_SIZE →
  length (enqueue uninit data q) = S (length q).
Proof.
  intros Hle. unfold enqueue.
  destruct (decide (RECORD_SIZE < length data)); [lia |].
  rewrite push_lambda_queue, length_app. cbn. lia.
Qed.

End encoding.

(** ** [push] and [pop] *)

#[local] Arguments ofstream_is_open : simpl never.
#[local] Arguments fs_exists : simpl never.
#[local] Arguments fs_truncate : simpl never.
#[local] Arguments fs_append : simpl never.
#[local] Arguments FileOps.fileExists_static : simpl never.
#[local] Arguments enqueue : simpl never.
#[local] Arguments FileOps.written : simpl never.

Ltac msimpl :=
  unfold mbind, M_bind, mret, M_ret, modify, get, throw in *; cbn in *.

Section queue.

Implicit Types (data uninit : list ascii) (out : BufferQ).

Lemma FileOps_push_returns uninit data (s : FileOps.t) :
  FileOps.push uninit data s = Returns tt (final_state (FileOps.push uninit data s)).
Proof.
  unfold FileOps.push, FileOps.notify_one.
  destruct (decide (data = [])); msimpl; [done |].
  destruct (decide (_ = THRESHOLD)); reflexivity.
Qed.

Lemma DataOps_push_returns uninit data (s : DataOps.t) :
  DataOps.push uninit data s = Returns tt (final_state (DataOps.push uninit data s)).
Proof.
  unfold DataOps.push, DataOps.notify_one.
  destruct (decide (data = [])); msimpl; [done |].
  destruct (decide (_ = THRESHOLD)); reflexivity.
Qed.

Lemma FileOps_push_empty uninit (s : FileOps.t) :
  final_state (FileOps.push uninit [] s) = s.
Proof. reflexivity. Qed.

Lemma DataOps_push_empty uninit (s : DataOps.t) :
  final_state (DataOps.push uninit [] s) = s.
Proof. reflexivity. Qed.

Lemma FileOps_push_records uninit data (s : FileOps.t) :
  data ≠ [] →
  FileOps.m_DataRecords (final_state (FileOps.push uninit data s)) =
    enqueue uninit data (FileOps.m_DataRecords s).
Proof.
  intros Hne. unfold FileOps.push, FileOps.notify_one.
  destruct (decide (data = [])); [done |]. msimpl.
  destruct (decide (_ = THRESHOLD)); reflexivity.
Qed.

Lemma DataOps_push_records uninit data (s : DataOps.t) :
  data ≠ [] →
  DataOps.m_DataRecords (final_state (DataOps.push uninit data s)) =
    enqueue uninit data (DataOps.m_DataRecords s).
Proof.
  intros Hne. unfold DataOps.push, DataOps.notify_one.
  destruct (decide (data = [])); [done |]. msimpl.
  destruct (decide (_ = THRESHOLD)); reflexivity.
Qed.

(** The flag and the notification count after a push. *)
Lemma FileOps_push_ready uninit data (s : FileOps.t) :
  let s' := final_state (FileOps.push uninit data s) in
  data ≠ [] →
  (length (FileOps.m_DataRecords s') = THRESHOLD →
     FileOps.m_dataReady s' = true ∧ FileOps.notified s' = S (FileOps.notified s)) ∧
  (length (FileOps.m_DataRecords s') ≠ THRESHOLD →
     FileOps.m_dataReady s' = FileOps.m_dataReady s ∧
     FileOps.notified s' = FileOps.notified s).
Proof.
  intros s' Hne. subst s'. unfold FileOps.push, FileOps.notify_one.
  destruct (decide (data = [])); [done |]. msimpl.
  destruct (decide (_ = THRESHOLD)) as [Heq | Hneq]; cbn; split; intros; done.
Qed.

Lemma DataOps_push_ready uninit data (s : DataOps.t) :
  let s' := final_state (DataOps.push uninit data s) in
  data ≠ [] →
  (length (DataOps.m_DataRecords s') = THRESHOLD →
     DataOps.m_dataReady s' = true ∧ DataOps.notified s' = S (DataOps.notified s)) ∧
  (length (DataOps.m_DataRecords s') ≠ THRESHOLD →
     DataOps.m_dataReady s' = DataOps.m_dataReady s ∧
     DataOps.notified s' = DataOps.notified s).
Proof.
  intros s' Hne. subst s'. unfold DataOps.push, DataOps.notify_one.
  destruct (decide (data = [])); [done |]. msimpl.
  destruct (decide (_ = THRESHOLD)) as [Heq | Hneq]; cbn; split; intros; done.
Qed.

End queue.

(** ** Payloads longer than 1024 bytes *)

Lemma payload_2050_enqueue uninit q :
  length uninit = RECORD_SIZE →
  enqueue uninit payload_2050 q =
    q ++ [padded (replicate 1024 "a"%char); replicate 1025 "c"%char].
Proof.
  intros Hu. rewrite enqueue_app. f_equal.
  rewrite (enqueue_uninit uninit (replicate RECORD_SIZE NUL)) by done.
  vm_compute. reflexivity.
Qed.

Lemma payload_1025_enqueue uninit q :
  length uninit = RECORD_SIZE →
  enqueue uninit payload_1025 q = q ++ [payload_1025].
Proof.
  intros Hu. rewrite enqueue_short by (done || (vm_compute; lia)).
  replace (padded payload_1025) with payload_1025 by (vm_compute; reflexivity).
  reflexivity.
Qed.

Lemma payload_2050_nonempty : payload_2050 ≠ [].
Proof. discriminate. Qed.

Lemma payload_1025_nonempty : payload_1025 ≠ [].
Proof. discriminate. Qed.

(** C1. The claim asks that a payload of [k*1024 + r] bytes become
    [k + (r>0 ? 1 : 0)] records whose trimmed contents concatenate to the
    payload. The code does otherwise on the 2050-byte payload
    [payload_2050] (k = 2, r = 2, three records expected): [push], of
    [FileOps] and of [DataOps] alike, enqueues two records, the first with
    bytes 0..1023 and the second with bytes 1025..2049 in all of its 1025
    cells; byte 1024, the [b], is in neither, so the trimmed contents
    are not the payload. *)
Theorem push_2050_bytes_drops_a_byte uninit (f : FileOps.t) (d : DataOps.t) :
  length uninit = RECORD_SIZE →
  let records := [padded (replicate 1024 "a"%char); replicate 1025 "c"%char] in
  FileOps.m_DataRecords (final_state (FileOps.push uninit payload_2050 f)) =
    FileOps.m_DataRecords f ++ records ∧
  DataOps.m_DataRecords (final_state (DataOps.push uninit payload_2050 d)) =
    DataOps.m_DataRecords d ++ records ∧
  length records = 2 ∧
  trimmed records = replicate 1024 "a"%char ++ replicate 1025 "c"%char ∧
  trimmed records ≠ payload_2050.
Proof.
  intros Hu records.
  rewrite FileOps_push_records, DataOps_push_records by apply payload_2050_nonempty.
  rewrite !payload_2050_enqueue by done.
  repeat split; try (vm_compute; reflexivity).
  intros Heq. apply (f_equal length) in Heq. vm_compute in Heq. discriminate.
Qed.

Lemma push_2050_bytes_drops_a_byte_witness :
  length stack_garbage = RECORD_SIZE ∧
  trimmed (FileOps.m_DataRecords
             (final_state (FileOps.push stack_garbage payload_2050 plain_sink)))
    ≠ payload_2050.
Proof.
  split; [reflexivity |].
  destruct (push_2050_bytes_drops_a_byte stack_garbage plain_sink DataOps.ctor eq_refl)
    as (Hf & _ & _ & _ & Hne).
  rewrite Hf. exact Hne.
Defined.

(** C2. The claim asks that every enqueued record hold at most 1024
    meaningful bytes and keep its last cell, the terminator, zero. The
    code does otherwise on the 1025-byte payload [payload_1025]: [push],
    of [FileOps] and of [DataOps] alike, enqueues one record that is the
    payload itself, so its last cell holds [a] and no cell is zero. *)
Theorem push_1025_bytes_overwrites_terminator uninit (f : FileOps.t) (d : DataOps.t) :
  length uninit = RECORD_SIZE →
  FileOps.m_DataRecords (final_state (FileOps.push uninit payload_1025 f)) =
    FileOps.m_DataRecords f ++ [payload_1025] ∧
  DataOps.m_DataRecords (final_state (DataOps.push uninit payload_1025 d)) =
    DataOps.m_DataRecords d ++ [payload_1025] ∧
  length payload_1025 = RECORD_SIZE ∧
  payload_1025 !! (RECORD_SIZE - 1) = Some "a"%char ∧
  NUL ∉ payload_1025.
Proof.
  intros Hu.
  rewrite FileOps_push_records, DataOps_push_records by apply payload_1025_nonempty.
  rewrite !payload_1025_enqueue by done.
  repeat split; try (vm_compute; reflexivity).
  unfold payload_1025. intros Hin. apply elem_of_replicate in Hin as [Hin _].
  discriminate Hin.
Qed.

Lemma push_1025_bytes_overwrites_terminator_witness :
  length stack_garbage = RECORD_SIZE ∧
  FileOps.m_DataRecords
    (final_state (FileOps.push stack_garbage payload_1025 plain_sink))
    !! 0 ≫= (.!! (RECORD_SIZE - 1)) = Some "a"%char.
Proof.
  split; [reflexivity |].
  destruct (push_1025_bytes_overwrites_terminator stack_garbage plain_sink
              DataOps.ctor eq_refl) as (Hf & _ & _ & Hlast & _).
  rewrite Hf. exact Hlast.
Defined.

(** ** The ready threshold *)

Section threshold.

Variable uninit : Record.

Lemma bytes_split_last (bytes : list ascii) :
  0 < length bytes →
  ∃ front b, bytes = front ++ [b] ∧ S (length front) = length bytes.
Proof.
  intros Hpos. destruct bytes as [| a bytes] using rev_ind; [cbn in Hpos; lia |].
  exists bytes, a. split; [done |]. rewrite length_app. cbn. lia.
Qed.

Lemma FileOps_push_one_byte b (f : FileOps.t) :
  let f' := final_state (FileOps.push uninit [b] f) in
  length (FileOps.m_DataRecords f') = S (length (FileOps.m_DataRecords f)).
Proof.
  cbn zeta. rewrite FileOps_push_records by done.
  apply enqueue_length_short. cbn. unfold RECORD_SIZE. lia.
Qed.

Lemma DataOps_push_one_byte b (d : DataOps.t) :
  let d' := final_state (DataOps.push uninit [b] d) in
  length (DataOps.m_DataRecords d') = S (length (DataOps.m_DataRecords d)).
Proof.
  cbn zeta. rewrite DataOps_push_records by done.
  apply enqueue_length_short. cbn. unfold RECORD_SIZE. lia.
Qed.

(** Below the threshold, single-byte pushes only lengthen the queue. *)
Lemma FileOps_bytes_below bytes : ∀ f : FileOps.t,
  length (FileOps.m_DataRecords f) + length bytes < THRESHOLD →
  let f' := FileOps.push_each uninit ((λ b, [b]) <$> bytes) f in
  length (FileOps.m_DataRecords f') = length (FileOps.m_DataRecords f) + length bytes ∧
  FileOps.m_dataReady f' = FileOps.m_dataReady f ∧
  FileOps.notified f' = FileOps.notified f.
Proof.
  induction bytes as [| b bytes IH]; intros f Hlt; cbn -[THRESHOLD] in *.
  - split; [lia | done].
  - pose proof (FileOps_push_one_byte b f) as Hlen. cbn zeta in Hlen.
    destruct (FileOps_push_ready uninit [b] f) as [_ Hkeep]; [done |].
    destruct Hkeep as [Hready Hnote]; [lia |].
    destruct (IH (final_state (FileOps.push uninit [b] f))) as (IH1 & IH2 & IH3);
      [lia |].
    unfold FileOps.push_each in *. rewrite IH1, IH2, IH3, Hlen, Hready, Hnote.
    split; [lia | done].
Qed.

Lemma DataOps_bytes_below bytes : ∀ d : DataOps.t,
  length (DataOps.m_DataRecords d) + length bytes < THRESHOLD →
  let d' := DataOps.push_each uninit ((λ b, [b]) <$> bytes) d in
  length (DataOps.m_DataRecords d') = length (DataOps.m_DataRecords d) + length bytes ∧
  DataOps.m_dataReady d' = DataOps.m_dataReady d ∧
  DataOps.notified d' = DataOps.notified d.
Proof.
  induction bytes as [| b bytes IH]; intros d Hlt; cbn -[THRESHOLD] in *.
  - split; [lia | done].
  - pose proof (DataOps_push_one_byte b d) as Hlen. cbn zeta in Hlen.
    destruct (DataOps_push_ready uninit [b] d) as [_ Hkeep]; [done |].
    destruct Hkeep as [Hready Hnote]; [lia |].
    destruct (IH (final_state (DataOps.push uninit [b] d))) as (IH1 & IH2 & IH3);
      [lia |].
    unfold DataOps.push_each in *. rewrite IH1, IH2, IH3, Hlen, Hready, Hnote.
    split; [lia | done].
Qed.

(** Scenario C on [FileOps]: of 256 single-byte pushes into an empty
    queue, the first 255 leave the flag down and the last raises it. *)
Lemma FileOps_scenario_C bytes (f : FileOps.t) :
  length bytes = THRESHOLD →
  FileOps.m_DataRecords f = [] → FileOps.m_dataReady f = false →
  (∀ k, k < THRESHOLD →
     FileOps.m_dataReady
       (FileOps.push_each uninit ((λ b, [b]) <$> take k bytes) f) = false) ∧
  FileOps.m_dataReady (FileOps.push_each uninit ((λ b, [b]) <$> bytes) f) = true ∧
  FileOps.notified (FileOps.push_each uninit ((λ b, [b]) <$> bytes) f) =
    S (FileOps.notified f).
Proof.
  intros Hlen Hq Hr. split.
  - intros k Hk.
    destruct (FileOps_bytes_below (take k bytes) f) as (_ & H2 & _).
    + rewrite Hq, length_take. cbn -[THRESHOLD]. lia.
    + by rewrite H2.
  - assert (0 < THRESHOLD) as Hpos by (unfold THRESHOLD; lia).
    destruct (bytes_split_last bytes) as (front & b & -> & Hfront); [lia |].
    rewrite fmap_app. unfold FileOps.push_each. rewrite foldl_app. cbn.
    destruct (FileOps_bytes_below front f) as (H1 & H2 & H3).
    { rewrite Hq. cbn -[THRESHOLD]. lia. }
    unfold FileOps.push_each in *.
    set (f' := foldl _ f _) in *.
    pose proof (FileOps_push_one_byte b f') as Hone. cbn zeta in Hone.
    destruct (FileOps_push_ready uninit [b] f') as [Hfire _]; [done |].
    destruct Hfire as [-> ->]; [| by rewrite H3].
    rewrite Hone, H1, Hq. cbn -[THRESHOLD]. lia.
Qed.

(** Scenario C on [DataOps]: of 256 single-byte pushes into an empty
    queue, the first 255 leave the flag down and the last raises it. *)
Lemma DataOps_scenario_C bytes (d : DataOps.t) :
  length bytes = THRESHOLD →
  DataOps.m_DataRecords d = [] → DataOps.m_dataReady d = false →
  (∀ k, k < THRESHOLD →
     DataOps.m_dataReady
       (DataOps.push_each uninit ((λ b, [b]) <$> take k bytes) d) = false) ∧
  DataOps.m_dataReady (DataOps.push_each uninit ((λ b, [b]) <$> bytes) d) = true ∧
  DataOps.notified (DataOps.push_each uninit ((λ b, [b]) <$> bytes) d) =
    S (DataOps.notified d).
Proof.
  intros Hlen Hq Hr. split.
  - intros k Hk.
    destruct (DataOps_bytes_below (take k bytes) d) as (_ & H2 & _).
    + rewrite Hq, length_take. cbn -[THRESHOLD]. lia.
    + by rewrite H2.
  - assert (0 < THRESHOLD) as Hpos by (unfold THRESHOLD; lia).
    destruct (bytes_split_last bytes) as (front & b & -> & Hfront); [lia |].
    rewrite fmap_app. unfold DataOps.push_each. rewrite foldl_app. cbn.
    destruct (DataOps_bytes_below front d) as (H1 & H2 & H3).
    { rewrite Hq. cbn -[THRESHOLD]. lia. }
    unfold DataOps.push_each in *.
    set (f' := foldl _ d _) in *.
    pose proof (DataOps_push_one_byte b f') as Hone. cbn zeta in Hone.
    destruct (DataOps_push_ready uninit [b] f') as [Hfire _]; [done |].
    destruct Hfire as [-> ->]; [| by rewrite H3].
    rewrite Hone, H1, Hq. cbn -[THRESHOLD]. lia.
Qed.


End threshold.

(** A push after which the queue holds exactly [THRESHOLD] = 256
    records, and before which it did not, raises [m_dataReady] and
    notifies the condition variable once; this holds in every state, so
    along every sequence of pushes, for [FileOps] and [DataOps], whether
    the push enqueues one record or several. In particular, of 256
    single-byte payloads pushed in succession into an empty queue with
    the flag down, the first 255 leave the flag down and the 256th
    raises it. *)
Theorem push_to_threshold_raises_ready uninit :
  (∀ data (f : FileOps.t),
     let f' := final_state (FileOps.push uninit data f) in
     length (FileOps.m_DataRecords f) ≠ THRESHOLD →
     length (FileOps.m_DataRecords f') = THRESHOLD →
     FileOps.m_dataReady f' = true ∧ FileOps.notified f' = S (FileOps.notified f)) ∧
  (∀ data (d : DataOps.t),
     let d' := final_state (DataOps.push uninit data d) in
     length (DataOps.m_DataRecords d) ≠ THRESHOLD →
     length (DataOps.m_DataRecords d') = THRESHOLD →
     DataOps.m_dataReady d' = true ∧ DataOps.notified d' = S (DataOps.notified d)) ∧
  (∀ bytes (f : FileOps.t),
     length bytes = THRESHOLD →
     FileOps.m_DataRecords f = [] → FileOps.m_dataReady f = false →
     (∀ k, k < THRESHOLD →
        FileOps.m_dataReady
          (FileOps.push_each uninit ((λ b, [b]) <$> take k bytes) f) = false) ∧
     FileOps.m_dataReady (FileOps.push_each uninit ((λ b, [b]) <$> bytes) f) = true ∧
     FileOps.notified (FileOps.push_each uninit ((λ b, [b]) <$> bytes) f) =
       S (FileOps.notified f)) ∧
  (∀ bytes (d : DataOps.t),
     length bytes = THRESHOLD →
     DataOps.m_DataRecords d = [] → DataOps.m_dataReady d = false →
     (∀ k, k < THRESHOLD →
        DataOps.m_dataReady
          (DataOps.push_each uninit ((λ b, [b]) <$> take k bytes) d) = false) ∧
     DataOps.m_dataReady (DataOps.push_each uninit ((λ b, [b]) <$> bytes) d) = true ∧
     DataOps.notified (DataOps.push_each uninit ((λ b, [b]) <$> bytes) d) =
       S (DataOps.notified d)).
Proof.
  split; [| split; [| split]].
  - intros data f f' Hbefore Hafter. subst f'.
    destruct (decide (data = [])) as [-> | Hne].
    + by rewrite FileOps_push_empty in Hafter.
    + by apply FileOps_push_ready.
  - intros data d d' Hbefore Hafter. subst d'.
    destruct (decide (data = [])) as [-> | Hne].
    + by rewrite DataOps_push_empty in Hafter.
    + by apply DataOps_push_ready.
  - apply FileOps_scenario_C.
  - apply DataOps_scenario_C.
Qed.

Lemma push_to_threshold_raises_ready_witness :
  FileOps.m_dataReady
    (FileOps.push_each stack_garbage
       ((λ b, [b]) <$> replicate THRESHOLD "x"%char) plain_sink) = true ∧
  DataOps.m_dataReady
    (DataOps.push_each stack_garbage
       ((λ b, [b]) <$> replicate THRESHOLD "x"%char) DataOps.ctor) = true.
Proof.
  destruct (push_to_threshold_raises_ready stack_garbage) as (_ & _ & Hf & Hd).
  split.
  - apply (Hf (replicate THRESHOLD "x"%char) plain_sink); reflexivity.
  - apply (Hd (replicate THRESHOLD "x"%char) DataOps.ctor); reflexivity.
Defined.

(** A push that takes the queue from below the threshold to above it
    leaves the flag as it was: the test is [size() == 256]. *)
Lemma push_across_threshold_is_silent uninit (d : DataOps.t) :
  length uninit = RECORD_SIZE →
  length (DataOps.m_DataRecords d) = THRESHOLD - 1 →
  let d' := final_state (DataOps.push uninit payload_2050 d) in
  length (DataOps.m_DataRecords d') = THRESHOLD + 1 ∧
  DataOps.m_dataReady d' = DataOps.m_dataReady d ∧
  DataOps.notified d' = DataOps.notified d.
Proof.
  intros Hu Hlen d'. subst d'.
  assert (length (DataOps.m_DataRecords
                    (final_state (DataOps.push uninit payload_2050 d))) = THRESHOLD + 1)
    as Hafter.
  { rewrite DataOps_push_records by apply payload_2050_nonempty.
    rewrite payload_2050_enqueue, length_app, Hlen by done. reflexivity. }
  split; [done |].
  apply DataOps_push_ready; [apply payload_2050_nonempty |].
  rewrite Hafter. unfold THRESHOLD. lia.
Qed.

Section above_threshold.

Variable uninit : Record.

Lemma enqueue_grows data q : length q ≤ length (enqueue uninit data q).
Proof. rewrite enqueue_app, length_app. lia. Qed.

(** Above the threshold a push leaves the flag and the condition
    variable alone, and the queue stays above it. *)
Lemma FileOps_push_above data (f : FileOps.t) :
  THRESHOLD < length (FileOps.m_DataRecords f) →
  let f' := final_state (FileOps.push uninit data f) in
  THRESHOLD < length (FileOps.m_DataRecords f') ∧
  FileOps.m_dataReady f' = FileOps.m_dataReady f ∧
  FileOps.notified f' = FileOps.notified f.
Proof.
  intros Habove f'. subst f'.
  destruct (decide (data = [])) as [-> | Hne]; [by rewrite FileOps_push_empty |].
  assert (THRESHOLD < length (FileOps.m_DataRecords
                                (final_state (FileOps.push uninit data f)))) as Hlen.
  { rewrite FileOps_push_records by done.
    pose proof (enqueue_grows data (FileOps.m_DataRecords f)). lia. }
  split; [done |]. apply FileOps_push_ready; [done | lia].
Qed.

Lemma DataOps_push_above data (d : DataOps.t) :
  THRESHOLD < length (DataOps.m_DataRecords d) →
  let d' := final_state (DataOps.push uninit data d) in
  THRESHOLD < length (DataOps.m_DataRecords d') ∧
  DataOps.m_dataReady d' = DataOps.m_dataReady d ∧
  DataOps.notified d' = DataOps.notified d.
Proof.
  intros Habove d'. subst d'.
  destruct (decide (data = [])) as [-> | Hne]; [by rewrite DataOps_push_empty |].
  assert (THRESHOLD < length (DataOps.m_DataRecords
                                (final_state (DataOps.push uninit data d)))) as Hlen.
  { rewrite DataOps_push_records by done.
    pose proof (enqueue_grows data (DataOps.m_DataRecords d)). lia. }
  split; [done |]. apply DataOps_push_ready; [done | lia].
Qed.

Lemma FileOps_pushes_above payloads : ∀ f : FileOps.t,
  THRESHOLD < length (FileOps.m_DataRecords f) →
  let f' := FileOps.push_each uninit payloads f in
  THRESHOLD < length (FileOps.m_DataRecords f') ∧
  FileOps.m_dataReady f' = FileOps.m_dataReady f ∧
  FileOps.notified f' = FileOps.notified f.
Proof.
  induction payloads as [| data payloads IH]; intros f Habove; [done |].
  destruct (FileOps_push_above data f Habove) as (H1 & H2 & H3).
  destruct (IH _ H1) as (I1 & I2 & I3).
  change (FileOps.push_each uninit (data :: payloads) f)
    with (FileOps.push_each uninit payloads (final_state (FileOps.push uninit data f))).
  cbn zeta. by rewrite I2, I3, H2, H3.
Qed.

Lemma DataOps_pushes_above payloads : ∀ d : DataOps.t,
  THRESHOLD < length (DataOps.m_DataRecords d) →
  let d' := DataOps.push_each uninit payloads d in
  THRESHOLD < length (DataOps.m_DataRecords d') ∧
  DataOps.m_dataReady d' = DataOps.m_dataReady d ∧
  DataOps.notified d' = DataOps.notified d.
Proof.
  induction payloads as [| data payloads IH]; intros d Habove; [done |].
  destruct (DataOps_push_above data d Habove) as (H1 & H2 & H3).
  destruct (IH _ H1) as (I1 & I2 & I3).
  change (DataOps.push_each uninit (data :: payloads) d)
    with (DataOps.push_each uninit payloads (final_state (DataOps.push uninit data d))).
  cbn zeta. by rewrite I2, I3, H2, H3.
Qed.

(** The push that crosses the threshold is itself silent. *)
Lemma FileOps_push_crossing data (f : FileOps.t) :
  length (FileOps.m_DataRecords f) < THRESHOLD →
  THRESHOLD < length (FileOps.m_DataRecords (final_state (FileOps.push uninit data f))) →
  FileOps.m_dataReady (final_state (FileOps.push uninit data f)) = FileOps.m_dataReady f ∧
  FileOps.notified (final_state (FileOps.push uninit data f)) = FileOps.notified f.
Proof.
  intros Hbelow Habove.
  destruct (decide (data = [])) as [-> | Hne].
  - rewrite FileOps_push_empty in Habove. lia.
  - apply FileOps_push_ready; [done | lia].
Qed.

Lemma DataOps_push_crossing data (d : DataOps.t) :
  length (DataOps.m_DataRecords d) < THRESHOLD →
  THRESHOLD < length (DataOps.m_DataRecords (final_state (DataOps.push uninit data d))) →
  DataOps.m_dataReady (final_state (DataOps.push uninit data d)) = DataOps.m_dataReady d ∧
  DataOps.notified (final_state (DataOps.push uninit data d)) = DataOps.notified d.
Proof.
  intros Hbelow Habove.
  destruct (decide (data = [])) as [-> | Hne].
  - rewrite DataOps_push_empty in Habove. lia.
  - apply DataOps_push_ready; [done | lia].
Qed.

End above_threshold.

(** C5. The claim asks that a push, of one record or of several, that
    brings the queue to the threshold of 256 records raise [m_dataReady]
    and notify the consumer; the source's comment reads "if the data
    queue contains at least 256 elements then notify the watcher thread".
    The code tests [m_DataRecords.size() == 256]. So a push of several
    records that takes the queue from below 256 to above it leaves the
    flag and the condition variable as they were, and so does every push
    after it, however many follow: the queue is at or above the threshold
    for good and the consumer is never woken. This holds for [FileOps]
    and [DataOps]. (A push that leaves exactly 256 records does raise the
    flag, whatever the number of its records: lemma
    [push_to_threshold_raises_ready], which includes scenario C.) *)
Theorem push_across_threshold_never_raises_ready
    uninit data payloads (f : FileOps.t) (d : DataOps.t) :
  (length (FileOps.m_DataRecords f) < THRESHOLD →
   THRESHOLD < length (FileOps.m_DataRecords (final_state (FileOps.push uninit data f))) →
   let f' := FileOps.push_each uninit payloads (final_state (FileOps.push uninit data f)) in
   THRESHOLD < length (FileOps.m_DataRecords f') ∧
   FileOps.m_dataReady f' = FileOps.m_dataReady f ∧
   FileOps.notified f' = FileOps.notified f) ∧
  (length (DataOps.m_DataRecords d) < THRESHOLD →
   THRESHOLD < length (DataOps.m_DataRecords (final_state (DataOps.push uninit data d))) →
   let d' := DataOps.push_each uninit payloads (final_state (DataOps.push uninit data d)) in
   THRESHOLD < length (DataOps.m_DataRecords d') ∧
   DataOps.m_dataReady d' = DataOps.m_dataReady d ∧
   DataOps.notified d' = DataOps.notified d).
Proof.
  split; intros Hbelow Habove.
  - destruct (FileOps_push_crossing uninit data f Hbelow Habove) as [C1 C2].
    destruct (FileOps_pushes_above uninit payloads _ Habove) as (A1 & A2 & A3).
    cbn zeta. by rewrite A2, A3, C1, C2.
  - destruct (DataOps_push_crossing uninit data d Hbelow Habove) as [C1 C2].
    destruct (DataOps_pushes_above uninit payloads _ Habove) as (A1 & A2 & A3).
    cbn zeta. by rewrite A2, A3, C1, C2.
Qed.

Lemma push_across_threshold_never_raises_ready_witness :
  FileOps.m_dataReady
    (FileOps.push_each stack_garbage (replicate 300 late_payload)
       (final_state
          (FileOps.push stack_garbage payload_2050
             (FileOps.push_each stack_garbage
                ((λ b, [b]) <$> replicate (THRESHOLD - 1) "x"%char) plain_sink))))
    = false ∧
  DataOps.m_dataReady
    (DataOps.push_each stack_garbage (replicate 300 late_payload)
       (final_state
          (DataOps.push stack_garbage payload_2050
             (DataOps.push_each stack_garbage
                ((λ b, [b]) <$> replicate (THRESHOLD - 1) "x"%char) DataOps.ctor))))
    = false.
Proof.
  destruct (push_across_threshold_never_raises_ready
              stack_garbage payload_2050 (replicate 300 late_payload)
              (FileOps.push_each stack_garbage
                 ((λ b, [b]) <$> replicate (THRESHOLD - 1) "x"%char) plain_sink)
              (DataOps.push_each stack_garbage
                 ((λ b, [b]) <$> replicate (THRESHOLD - 1) "x"%char) DataOps.ctor))
    as [Hf Hd].
  split.
  - destruct Hf as (_ & Hready & _); [vm_compute; lia | vm_compute; lia |].
    etransitivity; [exact Hready |]. vm_compute. reflexivity.
  - destruct Hd as (_ & Hready & _); [vm_compute; lia | vm_compute; lia |].
    etransitivity; [exact Hready |]. vm_compute. reflexivity.
Defined.

(** ** Draining *)

Section drain.

Implicit Types (out : BufferQ) (ops : list queue_op).

Lemma FileOps_pop_empty out (f : FileOps.t) :
  FileOps.m_DataRecords f = [] → FileOps.pop out f = Returns (false, out) f.
Proof. intros Hq. unfold FileOps.pop. by rewrite decide_True. Qed.

Lemma FileOps_pop_nonempty out (f : FileOps.t) :
  FileOps.m_DataRecords f ≠ [] →
  FileOps.pop out f =
    Returns (true, FileOps.m_DataRecords f)
      (FileOps.set_m_dataReady false (FileOps.set_m_DataRecords [] f)).
Proof. intros Hq. unfold FileOps.pop. by rewrite decide_False. Qed.

Lemma DataOps_pop_empty out (d : DataOps.t) :
  DataOps.m_DataRecords d = [] → DataOps.pop out d = Returns (false, out) d.
Proof. intros Hq. unfold DataOps.pop. by rewrite decide_True. Qed.

Lemma DataOps_pop_nonempty out (d : DataOps.t) :
  DataOps.m_DataRecords d ≠ [] →
  DataOps.pop out d =
    Returns (true, DataOps.m_DataRecords d)
      (DataOps.set_m_dataReady false (DataOps.set_m_DataRecords [] d)).
Proof. intros Hq. unfold DataOps.pop. by rewrite decide_False. Qed.

Lemma FileOps_push_pushed uninit data (f : FileOps.t) :
  FileOps.m_DataRecords (final_state (FileOps.push uninit data f)) =
    FileOps.m_DataRecords f ++ pushed_by (op_push uninit data).
Proof.
  cbn. destruct (decide (data = [])) as [-> | Hne].
  - by rewrite app_nil_r.
  - rewrite FileOps_push_records by done. apply enqueue_app.
Qed.

Lemma DataOps_push_pushed uninit data (d : DataOps.t) :
  DataOps.m_DataRecords (final_state (DataOps.push uninit data d)) =
    DataOps.m_DataRecords d ++ pushed_by (op_push uninit data).
Proof.
  cbn. destruct (decide (data = [])) as [-> | Hne].
  - by rewrite app_nil_r.
  - rewrite DataOps_push_records by done. apply enqueue_app.
Qed.

(** Whatever the order of pushes and drains, the batches handed out,
    followed by what is still queued, are the records that were queued
    at the start followed by the records pushed, each once and in
    order. *)
Lemma FileOps_run_ops_conserves ops : ∀ out (f : FileOps.t),
  mjoin (FileOps.run_ops ops out f).1 ++ FileOps.m_DataRecords (FileOps.run_ops ops out f).2
    = FileOps.m_DataRecords f ++ pushed ops.
Proof.
  induction ops as [| [uninit data |] ops IH]; intros out f.
  - cbn. by rewrite app_nil_r.
  - cbn [FileOps.run_ops]. rewrite IH, FileOps_push_pushed.
    unfold pushed. cbn [fmap list_fmap mjoin list_join]. by rewrite app_assoc.
  - cbn [FileOps.run_ops].
    destruct (decide (FileOps.m_DataRecords f = [])) as [Hq | Hq].
    + rewrite FileOps_pop_empty by done. rewrite IH. done.
    + rewrite FileOps_pop_nonempty by done.
      specialize (IH (FileOps.m_DataRecords f)
                    (FileOps.set_m_dataReady false (FileOps.set_m_DataRecords [] f))).
      destruct (FileOps.run_ops ops _ _) as [batches f''].
      cbn [fst snd] in *.
      change (mjoin (FileOps.m_DataRecords f :: batches))
        with (FileOps.m_DataRecords f ++ mjoin batches).
      rewrite <- app_assoc, IH. reflexivity.
Qed.

Lemma DataOps_run_ops_conserves ops : ∀ out (d : DataOps.t),
  mjoin (DataOps.run_ops ops out d).1 ++ DataOps.m_DataRecords (DataOps.run_ops ops out d).2
    = DataOps.m_DataRecords d ++ pushed ops.
Proof.
  induction ops as [| [uninit data |] ops IH]; intros out d.
  - cbn. by rewrite app_nil_r.
  - cbn [DataOps.run_ops]. rewrite IH, DataOps_push_pushed.
    unfold pushed. cbn [fmap list_fmap mjoin list_join]. by rewrite app_assoc.
  - cbn [DataOps.run_ops].
    destruct (decide (DataOps.m_DataRecords d = [])) as [Hq | Hq].
    + rewrite DataOps_pop_empty by done. rewrite IH. done.
    + rewrite DataOps_pop_nonempty by done.
      specialize (IH (DataOps.m_DataRecords d)
                    (DataOps.set_m_dataReady false (DataOps.set_m_DataRecords [] d))).
      destruct (DataOps.run_ops ops _ _) as [batches d''].
      cbn [fst snd] in *.
      change (mjoin (DataOps.m_DataRecords d :: batches))
        with (DataOps.m_DataRecords d ++ mjoin batches).
      rewrite <- app_assoc, IH. reflexivity.
Qed.

End drain.

(** C6. [pop] on an empty queue returns false and changes neither the
    object nor the caller's buffer; on a non-empty queue it returns true,
    hands the caller the whole queue in its order, and leaves the object
    with an empty queue and [m_dataReady] false, everything else as it
    was; there is no third case, so no partial drain. Along every
    sequence of pushes and drains, the batches handed out followed by the
    records still queued are exactly the records queued at the start
    followed by the records pushed, in order: no record is in two
    batches and none is lost. This holds for [FileOps] and [DataOps]. *)
Theorem pop_drains_all_or_nothing :
  (∀ out (f : FileOps.t),
     (FileOps.m_DataRecords f = [] → FileOps.pop out f = Returns (false, out) f) ∧
     (FileOps.m_DataRecords f ≠ [] →
        FileOps.pop out f =
          Returns (true, FileOps.m_DataRecords f)
            (FileOps.set_m_dataReady false (FileOps.set_m_DataRecords [] f)))) ∧
  (∀ out (d : DataOps.t),
     (DataOps.m_DataRecords d = [] → DataOps.pop out d = Returns (false, out) d) ∧
     (DataOps.m_DataRecords d ≠ [] →
        DataOps.pop out d =
          Returns (true, DataOps.m_DataRecords d)
            (DataOps.set_m_dataReady false (DataOps.set_m_DataRecords [] d)))) ∧
  (∀ ops out (f : FileOps.t),
     mjoin (FileOps.run_ops ops out f).1
       ++ FileOps.m_DataRecords (FileOps.run_ops ops out f).2
     = FileOps.m_DataRecords f ++ pushed ops) ∧
  (∀ ops out (d : DataOps.t),
     mjoin (DataOps.run_ops ops out d).1
       ++ DataOps.m_DataRecords (DataOps.run_ops ops out d).2
     = DataOps.m_DataRecords d ++ pushed ops).
Proof.
  split; [| split; [| split]].
  - intros out f. split; [apply FileOps_pop_empty | apply FileOps_pop_nonempty].
  - intros out d. split; [apply DataOps_pop_empty | apply DataOps_pop_nonempty].
  - intros ops out f. apply FileOps_run_ops_conserves.
  - intros ops out d. apply DataOps_run_ops_conserves.
Qed.

Lemma pop_drains_all_or_nothing_witness :
  FileOps.pop [] plain_sink = Returns (false, []) plain_sink ∧
  let d := final_state (DataOps.push stack_garbage ["h"; "i"]%char DataOps.ctor) in
  DataOps.pop [] d =
    Returns (true, DataOps.m_DataRecords d)
      (DataOps.set_m_dataReady false (DataOps.set_m_DataRecords [] d)).
Proof.
  destruct pop_drains_all_or_nothing as (Hf & Hd & _ & _).
  split.
  - apply (Hf [] plain_sink). reflexivity.
  - intros d. apply (Hd [] d). vm_compute. discriminate.
Defined.

(** ** [append] and [write] *)

(** C8. For every input, a string, an 8, 16, 32 or 64-bit value or a
    vector of such values, [appendFile] is the same state transformer as
    [writeFile] on [FileOps], and [append] the same as [write] on
    [DataOps], whatever sink implements [writeDataTo]: append has no
    behaviour of its own. *)
Theorem append_is_write uninit (writeDataTo : list ascii → M DataOps.t unit) :
  (∀ data, FileOps.appendFile uninit data = FileOps.writeFile uninit data) ∧
  (∀ data, FileOps.appendFile_uint8_t uninit data = FileOps.writeFile_uint8_t uninit data) ∧
  (∀ data, FileOps.appendFile_uint16_t uninit data = FileOps.writeFile_uint16_t uninit data) ∧
  (∀ data, FileOps.appendFile_uint32_t uninit data = FileOps.writeFile_uint32_t uninit data) ∧
  (∀ data, FileOps.appendFile_uint64_t uninit data = FileOps.writeFile_uint64_t uninit data) ∧
  (∀ binaryStream, FileOps.appendFile_vector_uint8_t uninit binaryStream =
                   FileOps.writeFile_vector_uint8_t uninit binaryStream) ∧
  (∀ binaryStream, FileOps.appendFile_vector_uint16_t uninit binaryStream =
                   FileOps.writeFile_vector_uint16_t uninit binaryStream) ∧
  (∀ binaryStream, FileOps.appendFile_vector_uint32_t uninit binaryStream =
                   FileOps.writeFile_vector_uint32_t uninit binaryStream) ∧
  (∀ binaryStream, FileOps.appendFile_vector_uint64_t uninit binaryStream =
                   FileOps.writeFile_vector_uint64_t uninit binaryStream) ∧
  (∀ data, DataOps.append writeDataTo data = DataOps.write writeDataTo data) ∧
  (∀ data, DataOps.append_uint8_t writeDataTo data = DataOps.write_uint8_t writeDataTo data) ∧
  (∀ data, DataOps.append_uint16_t writeDataTo data = DataOps.write_uint16_t writeDataTo data) ∧
  (∀ data, DataOps.append_uint32_t writeDataTo data = DataOps.write_uint32_t writeDataTo data) ∧
  (∀ data, DataOps.append_uint64_t writeDataTo data = DataOps.write_uint64_t writeDataTo data) ∧
  (∀ binaryStream, DataOps.append_vector_uint8_t writeDataTo binaryStream =
                   DataOps.write_vector_uint8_t writeDataTo binaryStream) ∧
  (∀ binaryStream, DataOps.append_vector_uint16_t writeDataTo binaryStream =
                   DataOps.write_vector_uint16_t writeDataTo binaryStream) ∧
  (∀ binaryStream, DataOps.append_vector_uint32_t writeDataTo binaryStream =
                   DataOps.write_vector_uint32_t writeDataTo binaryStream) ∧
  (∀ binaryStream, DataOps.append_vector_uint64_t writeDataTo binaryStream =
                   DataOps.write_vector_uint64_t writeDataTo binaryStream).
Proof. repeat split; intros; reflexivity. Qed.

(** ** The builder setters *)

(** C10. [setFileName], [setFilePath] and [setFileExtension], called
    with an empty argument or with the value the object already has,
    return with the object exactly as it was: file name, file path, file
    extension and path object, and every other member, are unchanged. *)
Theorem setters_ignore_empty_and_same (f : FileOps.t) :
  (∀ fileName,
     fileName = EmptyString ∨ fileName = FileOps.m_FileName f →
     FileOps.setFileName fileName f = Returns tt f) ∧
  (∀ filePath,
     filePath = EmptyString ∨ filePath = FileOps.m_FilePath f →
     FileOps.setFilePath filePath f = Returns tt f) ∧
  (∀ fileExtension,
     fileExtension = EmptyString ∨ fileExtension = FileOps.m_FileExtension f →
     FileOps.setFileExtension fileExtension f = Returns tt f).
Proof.
  repeat split; intros arg Harg.
  - unfold FileOps.setFileName. by rewrite decide_True.
  - unfold FileOps.setFilePath. by rewrite decide_True.
  - unfold FileOps.setFileExtension. by rewrite decide_True.
Qed.

Lemma setters_ignore_empty_and_same_witness :
  FileOps.setFileName "log.txt" plain_sink = Returns tt plain_sink ∧
  FileOps.setFilePath EmptyString plain_sink = Returns tt plain_sink ∧
  FileOps.setFileExtension ".txt" plain_sink = Returns tt plain_sink.
Proof.
  destruct (setters_ignore_empty_and_same plain_sink) as (Hn & Hp & He).
  split; [| split].
  - apply Hn. right. reflexivity.
  - apply Hp. left. reflexivity.
  - apply He. right. reflexivity.
Defined.

(** The setters do act on other arguments: a new name changes the name
    and the path object. *)
Example setFileName_other :
  final_state (FileOps.setFileName "trace.log" plain_sink) =
    FileOps.set_m_FilePathObj "/home/user/trace.txt"
      (FileOps.set_m_FileName "trace.txt" plain_sink).
Proof. vm_compute. reflexivity. Qed.

(** ** [writeFile] and the destination *)

Section producer.

Implicit Types (data uninit : list ascii) (f : FileOps.t).

Lemma writeFile_empty uninit f : FileOps.writeFile uninit [] f = Returns tt f.
Proof. reflexivity. Qed.

Lemma writeFile_present uninit data f :
  data ≠ [] →
  FileOps.fileExists_static (FileOps.m_FilePathObj f) (FileOps.os f) = true →
  FileOps.writeFile uninit data f = FileOps.push uninit data f.
Proof.
  intros Hne Hex. unfold FileOps.writeFile, FileOps.fileExists.
  rewrite decide_False by done. msimpl. by rewrite Hex.
Qed.

Lemma createFile_created f :
  FileOps.fileExists_static (FileOps.m_FilePathObj f) (FileOps.os f) = false →
  ofstream_is_open (FileOps.m_FilePathObj f) (FileOps.os f) = true →
  FileOps.createFile f = Returns true (file_created f).
Proof.
  intros Hex Hopen. unfold FileOps.createFile, FileOps.fileExists.
  msimpl. rewrite Hex. cbn. by rewrite Hopen.
Qed.

Lemma createFile_refused f :
  FileOps.fileExists_static (FileOps.m_FilePathObj f) (FileOps.os f) = false →
  ofstream_is_open (FileOps.m_FilePathObj f) (FileOps.os f) = false →
  FileOps.createFile f = Returns false (FileOps.set_m_isFileOpsRunning false f).
Proof.
  intros Hex Hopen. unfold FileOps.createFile, FileOps.fileExists.
  msimpl. rewrite Hex. cbn. rewrite Hopen. by destruct f.
Qed.

Lemma writeFile_created uninit data f :
  data ≠ [] →
  FileOps.fileExists_static (FileOps.m_FilePathObj f) (FileOps.os f) = false →
  ofstream_is_open (FileOps.m_FilePathObj f) (FileOps.os f) = true →
  FileOps.writeFile uninit data f = FileOps.push uninit data (file_created f).
Proof.
  intros Hne Hex Hopen. unfold FileOps.writeFile, FileOps.fileExists.
  rewrite decide_False by done. unfold mbind, M_bind at 1. rewrite Hex. cbn.
  unfold mbind, M_bind. by rewrite createFile_created.
Qed.

Lemma writeFile_refused uninit data f :
  data ≠ [] →
  FileOps.fileExists_static (FileOps.m_FilePathObj f) (FileOps.os f) = false →
  ofstream_is_open (FileOps.m_FilePathObj f) (FileOps.os f) = false →
  FileOps.writeFile uninit data f =
    Throws (runtime_error "File neither exists nor can be created")
           (FileOps.set_m_isFileOpsRunning false f).
Proof.
  intros Hne Hex Hopen. unfold FileOps.writeFile, FileOps.fileExists.
  rewrite decide_False by done. unfold mbind, M_bind at 1. rewrite Hex. cbn.
  unfold mbind, M_bind. by rewrite createFile_refused.
Qed.

End producer.

Lemma destination_ready_cases (f : FileOps.t) :
  (FileOps.fileExists_static (FileOps.m_FilePathObj f) (FileOps.os f) = true ∧
   destination_ready f = true) ∨
  (FileOps.fileExists_static (FileOps.m_FilePathObj f) (FileOps.os f) = false ∧
   ofstream_is_open (FileOps.m_FilePathObj f) (FileOps.os f) = destination_ready f).
Proof.
  unfold destination_ready.
  destruct (FileOps.fileExists_static _ _); [left | right]; done.
Qed.

(** The claim of C4 as the spec words it fails on the code: the object
    [readonly_sink] has its path set by the constructor, the system
    refuses to create the file, and [writeFile] throws. *)
Lemma write_fails_on_io_grounds : ¬ write_never_fails_on_io.
Proof.
  intros Hclaim.
  specialize (Hclaim stack_garbage ["x"%char] readonly_sink).
  assert (FileOps.m_FilePathObj readonly_sink ≠ EmptyString) as Hset
    by (vm_compute; discriminate).
  apply Hclaim in Hset. vm_compute in Hset. discriminate.
Qed.

(** C4, amended. [push] always returns. [writeFile], and [appendFile]
    with it, returns on an empty payload and whenever the destination
    file exists or can be created; on a non-empty payload whose file
    neither exists nor can be created it throws
    [runtime_error("File neither exists nor can be created")], whether
    the path was never set or the system refuses the creation; it does
    not fail when an existing file cannot be written. [DataOps::write]
    does nothing on an empty payload and otherwise does what the sink's
    [writeDataTo] does. *)
Theorem write_fails_only_without_a_file
    uninit data (f : FileOps.t) (d : DataOps.t)
    (writeDataTo : list ascii → M DataOps.t unit) :
  returns (FileOps.push uninit data f) = true ∧
  returns (DataOps.push uninit data d) = true ∧
  (returns (FileOps.writeFile uninit data f) = true ↔
     data = [] ∨ destination_ready f = true) ∧
  (data ≠ [] ∧ destination_ready f = false ↔
     FileOps.writeFile uninit data f =
       Throws (runtime_error "File neither exists nor can be created")
              (FileOps.set_m_isFileOpsRunning false f)) ∧
  FileOps.appendFile uninit data f = FileOps.writeFile uninit data f ∧
  DataOps.write writeDataTo data d =
    (if decide (data = []) then Returns tt d else writeDataTo data d).
Proof.
  split; [by rewrite FileOps_push_returns |].
  split; [by rewrite DataOps_push_returns |].
  split; [| split; [| split; [reflexivity |]]].
  - destruct (decide (data = [])) as [-> | Hne]; [by split; [left |] |].
    destruct (destination_ready_cases f) as [[Hex ->] | [Hex <-]].
    + rewrite writeFile_present, FileOps_push_returns by done. by split; [right |].
    + destruct (ofstream_is_open _ _) eqn:Hopen.
      * rewrite writeFile_created, FileOps_push_returns by done. by split; [right |].
      * rewrite writeFile_refused by done. cbn. split; [done | by intros [? | ?]].
  - destruct (decide (data = [])) as [-> | Hne].
    { split; [by intros [? _] | by rewrite writeFile_empty]. }
    destruct (destination_ready_cases f) as [[Hex ->] | [Hex <-]].
    + rewrite writeFile_present, FileOps_push_returns by done.
      split; [by intros [_ ?] | done].
    + destruct (ofstream_is_open _ _) eqn:Hopen.
      * rewrite writeFile_created, FileOps_push_returns by done.
        split; [by intros [_ ?] | done].
      * rewrite writeFile_refused by done. done.
  - unfold DataOps.write. by destruct (decide (data = [])).
Qed.

Lemma write_fails_only_without_a_file_witness :
  returns (FileOps.writeFile stack_garbage ["x"%char] plain_sink) = true ∧
  returns (FileOps.writeFile stack_garbage ["x"%char] locked_sink) = true ∧
  throws (FileOps.writeFile stack_garbage ["x"%char] readonly_sink) = true.
Proof.
  split; [| split].
  - apply (write_fails_only_without_a_file stack_garbage ["x"%char] plain_sink
             DataOps.ctor (λ _, mret tt)).
    right. vm_compute. reflexivity.
  - apply (write_fails_only_without_a_file stack_garbage ["x"%char] locked_sink
             DataOps.ctor (λ _, mret tt)).
    right. vm_compute. reflexivity.
  - destruct (write_fails_only_without_a_file stack_garbage ["x"%char] readonly_sink
                DataOps.ctor (λ _, mret tt)) as (_ & _ & _ & [Hthrow _] & _).
    rewrite Hthrow; [reflexivity |].
    split; [discriminate | vm_compute; reflexivity].
Defined.

(** ** The watcher and the writer *)

Section watcher.

Import FileOps.
Implicit Types (f : FileOps.t).

Lemma watcher_wakes f :
  watcher f = W_WAIT → m_dataReady f || m_shutAndExit f = true →
  m_DataRecords f ≠ [] →
  keepWatchAndPull_step f =
    set_watcher (W_DISPATCH true)
      (set_dataq (m_DataRecords f)
        (set_notified (S (notified f))
          (set_m_dataReady false (set_m_DataRecords [] f)))).
Proof.
  intros Hpc Hwake Hq. unfold keepWatchAndPull_step.
  rewrite Hpc, Hwake, FileOps_pop_nonempty by done. reflexivity.
Qed.

Lemma watcher_wakes_empty f :
  watcher f = W_WAIT → m_dataReady f || m_shutAndExit f = true →
  m_DataRecords f = [] →
  keepWatchAndPull_step f =
    set_watcher (W_DISPATCH false)
      (set_dataq (dataq f) (set_notified (S (notified f)) f)).
Proof.
  intros Hpc Hwake Hq. unfold keepWatchAndPull_step.
  rewrite Hpc, Hwake, FileOps_pop_empty by done. reflexivity.
Qed.

Lemma watcher_sleeps f :
  watcher f = W_WAIT → m_dataReady f || m_shutAndExit f = false →
  keepWatchAndPull_step f = f.
Proof.
  intros Hpc Hwake. unfold keepWatchAndPull_step. by rewrite Hpc, Hwake.
Qed.

Lemma watcher_dispatches f :
  watcher f = W_DISPATCH true →
  keepWatchAndPull_step f =
    set_watcher W_JOIN (set_m_excpPtrVec (m_excpPtrVec f ++ [None]) f).
Proof. intros Hpc. unfold keepWatchAndPull_step. by rewrite Hpc. Qed.

Lemma watcher_skips f :
  watcher f = W_DISPATCH false →
  keepWatchAndPull_step f = set_watcher W_CHECK f.
Proof. intros Hpc. unfold keepWatchAndPull_step. by rewrite Hpc. Qed.

(** The writer on a file that opens: every record's content and a
    newline go to the file, the batch is used up, [excpPtr] stays as it
    was. *)
Lemma writeToFile_opened dataQueue excpPtr f :
  dataQueue ≠ [] → m_isFileOpsRunning f = false →
  ofstream_is_open (m_FilePathObj f) (os f) = true →
  writeToFile dataQueue excpPtr f =
    Returns ([], excpPtr)
      (set_m_isFileOpsRunning false
        (set_os (fs_append (m_FilePathObj f) (written dataQueue) (os f)) f)).
Proof.
  intros Hq Hrun Hopen. unfold writeToFile.
  by rewrite decide_False, Hrun, Hopen.
Qed.

(** The writer on a file that does not open: nothing is written, the
    batch stays in the queue it was given, and the failure is stored
    through [excpPtr]. *)
Lemma writeToFile_unopened dataQueue excpPtr f :
  dataQueue ≠ [] → m_isFileOpsRunning f = false →
  ofstream_is_open (m_FilePathObj f) (os f) = false →
  writeToFile dataQueue excpPtr f =
    Returns (dataQueue, Some (runtime_error (writing_error f)))
      (set_m_isFileOpsRunning false f).
Proof.
  intros Hq Hrun Hopen. unfold writeToFile.
  by rewrite decide_False, Hrun, Hopen.
Qed.

Lemma watcher_joins_written f :
  watcher f = W_JOIN → dataq f ≠ [] → m_isFileOpsRunning f = false →
  ofstream_is_open (m_FilePathObj f) (os f) = true →
  keepWatchAndPull_step f =
    set_watcher W_CHECK
      (set_dataq []
        (set_m_isFileOpsRunning false
          (set_os (fs_append (m_FilePathObj f) (written (dataq f)) (os f)) f))).
Proof.
  intros Hpc Hq Hrun Hopen. unfold keepWatchAndPull_step.
  by rewrite Hpc, writeToFile_opened.
Qed.

Lemma watcher_joins_failed f :
  watcher f = W_JOIN → dataq f ≠ [] → m_isFileOpsRunning f = false →
  ofstream_is_open (m_FilePathObj f) (os f) = false →
  keepWatchAndPull_step f =
    set_watcher W_CHECK (set_dataq (dataq f) (set_m_isFileOpsRunning false f)).
Proof.
  intros Hpc Hq Hrun Hopen. unfold keepWatchAndPull_step.
  by rewrite Hpc, writeToFile_unopened.
Qed.

Lemma watcher_checks f :
  watcher f = W_CHECK →
  keepWatchAndPull_step f =
    set_watcher (if m_shutAndExit f then W_EXITED else W_WAIT) f.
Proof.
  intros Hpc. unfold keepWatchAndPull_step. rewrite Hpc.
  by destruct (m_shutAndExit f).
Qed.

(** One iteration on a non-empty queue, up to the shutdown test: the
    fault list gains one null pointer whether the file opens or not. *)
Lemma watcher_iteration f :
  watcher f = W_WAIT → m_dataReady f || m_shutAndExit f = true →
  m_DataRecords f ≠ [] → m_isFileOpsRunning f = false →
  let f' := run [ev_watcher; ev_watcher; ev_watcher] f in
  watcher f' = W_CHECK ∧
  m_DataRecords f' = [] ∧
  m_dataReady f' = false ∧
  m_shutAndExit f' = m_shutAndExit f ∧
  m_excpPtrVec f' = m_excpPtrVec f ++ [None] ∧
  m_FilePathObj f' = m_FilePathObj f ∧
  if ofstream_is_open (m_FilePathObj f) (os f)
  then os f' = fs_append (m_FilePathObj f) (written (m_DataRecords f)) (os f) ∧
       dataq f' = []
  else os f' = os f ∧ dataq f' = m_DataRecords f.
Proof.
  intros Hpc Hwake Hq Hrun f'. subst f'. unfold run. cbn [foldl step].
  rewrite (watcher_wakes f) by done.
  set (f1 := set_watcher (W_DISPATCH true) _).
  rewrite (watcher_dispatches f1) by done.
  set (f2 := set_watcher W_JOIN _).
  destruct (ofstream_is_open (m_FilePathObj f) (os f)) eqn:Hopen.
  - rewrite (watcher_joins_written f2) by done. cbn. done.
  - rewrite (watcher_joins_failed f2) by done. cbn. done.
Qed.

End watcher.

(** C3. The claim asks that a batch whose file cannot be opened leave
    its failure in the fault list. On every such batch the code runs as
    follows: the watcher appends a copy of the still-null [excpPtr] to
    [m_excpPtrVec] before the writer starts, the writer stores the
    [runtime_error] through its reference to the watcher's local
    [excpPtr] ([writeToFile_unopened]), and that local is never read
    again. After the iteration the fault list is the old list followed by
    one null pointer, so it names no failure that the old list did not
    name; nothing was written, the batch sits in the watcher's buffer
    until the next [pop] clears it, and the watcher goes on to its
    shutdown test. *)
Theorem failed_batch_leaves_a_null_fault (f : FileOps.t) :
  FileOps.watcher f = FileOps.W_WAIT →
  FileOps.m_dataReady f || FileOps.m_shutAndExit f = true →
  FileOps.m_DataRecords f ≠ [] →
  FileOps.m_isFileOpsRunning f = false →
  ofstream_is_open (FileOps.m_FilePathObj f) (FileOps.os f) = false →
  let f' := FileOps.run [FileOps.ev_watcher; FileOps.ev_watcher; FileOps.ev_watcher] f in
  FileOps.m_excpPtrVec f' = FileOps.m_excpPtrVec f ++ [None] ∧
  (∀ e, Some e ∈ FileOps.m_excpPtrVec f' → Some e ∈ FileOps.m_excpPtrVec f) ∧
  FileOps.os f' = FileOps.os f ∧
  FileOps.m_DataRecords f' = [] ∧
  FileOps.dataq f' = FileOps.m_DataRecords f ∧
  FileOps.watcher f' = FileOps.W_CHECK.
Proof.
  intros Hpc Hwake Hq Hrun Hopen f'.
  destruct (watcher_iteration f Hpc Hwake Hq Hrun) as (H1 & H2 & _ & _ & H5 & _ & H7).
  fold f' in H1, H2, H5, H7. rewrite Hopen in H7. destruct H7 as [H7 H8].
  repeat split; try done.
  intros e. rewrite H5, elem_of_app, list_elem_of_singleton.
  intros [? | ?]; [done | discriminate].
Qed.

Lemma failed_batch_leaves_a_null_fault_witness :
  returns (FileOps.writeFile stack_garbage ["x"%char] locked_sink) = true ∧
  FileOps.m_excpPtrVec
    (FileOps.run [FileOps.ev_watcher; FileOps.ev_watcher; FileOps.ev_watcher]
       unwritable_state) = [None; None].
Proof.
  split; [vm_compute; reflexivity |].
  assert (FileOps.m_DataRecords unwritable_state ≠ []) as Hq
    by (vm_compute; discriminate).
  destruct (failed_batch_leaves_a_null_fault unwritable_state) as [Hvec _];
    [vm_compute; reflexivity .. | exact Hq | vm_compute; reflexivity
     | vm_compute; reflexivity |].
  etransitivity; [exact Hvec |]. vm_compute. reflexivity.
Defined.

(** A batch that is written gains the fault list a null pointer as
    well. *)
Lemma written_batch_leaves_a_null_fault (f : FileOps.t) :
  FileOps.watcher f = FileOps.W_WAIT →
  FileOps.m_dataReady f || FileOps.m_shutAndExit f = true →
  FileOps.m_DataRecords f ≠ [] →
  FileOps.m_isFileOpsRunning f = false →
  ofstream_is_open (FileOps.m_FilePathObj f) (FileOps.os f) = true →
  let f' := FileOps.run [FileOps.ev_watcher; FileOps.ev_watcher; FileOps.ev_watcher] f in
  FileOps.m_excpPtrVec f' = FileOps.m_excpPtrVec f ++ [None] ∧
  FileOps.os f' =
    fs_append (FileOps.m_FilePathObj f) (FileOps.written (FileOps.m_DataRecords f))
      (FileOps.os f).
Proof.
  intros Hpc Hwake Hq Hrun Hopen f'.
  destruct (watcher_iteration f Hpc Hwake Hq Hrun) as (_ & _ & _ & _ & H5 & _ & H7).
  fold f' in H5, H7. rewrite Hopen in H7. by destruct H7.
Qed.

(** ** Shutdown *)

(** At its shutdown test the watcher leaves the loop without looking at
    the queue. *)
Lemma watcher_exit_ignores_queue (f : FileOps.t) :
  FileOps.watcher f = FileOps.W_CHECK → FileOps.m_shutAndExit f = true →
  FileOps.keepWatchAndPull_step f = FileOps.set_watcher FileOps.W_EXITED f.
Proof. intros Hpc Hshut. by rewrite watcher_checks, Hshut. Qed.

(** The owner's join returns only once the watcher has returned, and
    leaves the handle not joinable. *)
Lemma dtor_join_returns (f f' : FileOps.t) :
  FileOps.dtor_join f = Returns tt f' →
  FileOps.m_watcher f' = false ∧
  (FileOps.m_watcher f = true → FileOps.watcher f' = FileOps.W_EXITED).
Proof.
  unfold FileOps.dtor_join. destruct (FileOps.m_watcher f) eqn:Hj.
  - destruct (decide (FileOps.watcher f = FileOps.W_EXITED)) as [Hpc | Hpc]; [| done].
    intros [= <-]. done.
  - intros [= <-]. done.
Qed.

(** Shutdown requested while the watcher waits: the queue is drained and
    written before the watcher returns. *)
Lemma shutdown_while_waiting_drains (f : FileOps.t) :
  FileOps.watcher f = FileOps.W_WAIT →
  FileOps.m_DataRecords f ≠ [] →
  FileOps.m_isFileOpsRunning f = false →
  ofstream_is_open (FileOps.m_FilePathObj f) (FileOps.os f) = true →
  let f' := FileOps.run [FileOps.ev_dtor_signal; FileOps.ev_watcher; FileOps.ev_watcher;
                         FileOps.ev_watcher; FileOps.ev_watcher] f in
  FileOps.watcher f' = FileOps.W_EXITED ∧
  FileOps.m_DataRecords f' = [] ∧
  FileOps.os f' =
    fs_append (FileOps.m_FilePathObj f) (FileOps.written (FileOps.m_DataRecords f))
      (FileOps.os f).
Proof.
  intros Hpc Hq Hrun Hopen f'. subst f'.
  pose (f0 := FileOps.set_notified (S (FileOps.notified f))
                (FileOps.set_m_shutAndExit true f)).
  change (FileOps.run _ f)
    with (FileOps.keepWatchAndPull_step
            (FileOps.run [FileOps.ev_watcher; FileOps.ev_watcher; FileOps.ev_watcher] f0)).
  destruct (watcher_iteration f0) as (H1 & H2 & _ & H4 & _ & _ & H7);
    try done.
  { cbn. apply orb_true_r. }
  set (f3 := FileOps.run _ f0) in *.
  cbn in H4, H7. rewrite Hopen in H7. destruct H7 as [H7 _].
  rewrite watcher_exit_ignores_queue by done. cbn. done.
Qed.

(** C7. The claim asks that records still queued when shutdown is
    requested be drained and written before the watcher exits. On the
    schedule [mid_batch_schedule] the code does otherwise: the watcher
    has drained 256 records and is writing them when a producer pushes
    the payload "late" and the owner raises the shutdown flag; after the
    write the watcher tests the flag and returns. The destructor's join
    completes with the handle joined and the watcher gone, the file holds
    the 256 lines of the batch, and the record of "late" is still in the
    queue, never written. *)
Theorem shutdown_mid_batch_strands_a_record :
  let f := FileOps.run mid_batch_schedule plain_sink in
  FileOps.watcher f = FileOps.W_EXITED ∧
  FileOps.m_watcher f = false ∧
  FileOps.m_DataRecords f = [padded late_payload] ∧
  files (FileOps.os f) !! FileOps.m_FilePathObj f =
    Some (mjoin (replicate THRESHOLD ["x"%char; FileOps.newline])).
Proof. vm_compute. repeat split. Qed.

(** ** Numeric payloads *)

Section bitset.

Implicit Types (N : nat) (data : Z).

Lemma bitset_to_string_S N data :
  bitset_to_string (S N) data =
    (if Z.testbit data (Z.of_nat N) then "1"%char else "0"%char)
      :: bitset_to_string N data.
Proof.
  unfold bitset_to_string. rewrite seq_S, reverse_app. reflexivity.
Qed.

Lemma bitset_to_string_length N data : length (bitset_to_string N data) = N.
Proof.
  unfold bitset_to_string. by rewrite length_fmap, length_reverse, length_seq.
Qed.

Lemma bitset_to_string_digits N data :
  Forall (λ c, c = "0"%char ∨ c = "1"%char) (bitset_to_string N data).
Proof.
  induction N as [| N IH]; [constructor |].
  rewrite bitset_to_string_S. constructor; [| done].
  destruct (Z.testbit data (Z.of_nat N)); [by right | by left].
Qed.

Lemma bitset_to_string_no_NUL N data : NUL ∉ bitset_to_string N data.
Proof.
  intros Hin.
  pose proof (bitset_to_string_digits N data) as Hdigits.
  rewrite Forall_forall in Hdigits. by destruct (Hdigits _ Hin).
Qed.

Lemma binary_value_from a digits :
  foldl (λ acc c, (2 * acc + (if decide (c = "1"%char) then 1 else 0))%Z) a digits =
    (a * 2 ^ Z.of_nat (length digits) + binary_value digits)%Z.
Proof.
  unfold binary_value. revert a.
  induction digits as [| d digits IH]; intros a.
  - cbn. lia.
  - cbn [foldl length].
    rewrite IH, (IH (2 * 0 + _)%Z).
    rewrite Nat2Z.inj_succ, Z.pow_succ_r by lia. ring.
Qed.

Lemma binary_value_cons c digits :
  binary_value (c :: digits) =
    ((if decide (c = "1"%char) then 1 else 0) * 2 ^ Z.of_nat (length digits)
     + binary_value digits)%Z.
Proof.
  unfold binary_value at 1. cbn [foldl]. rewrite binary_value_from.
  rewrite Z.mul_0_r, Z.add_0_l. reflexivity.
Qed.

(** The text denotes the value, reduced to [N] bits. *)
Lemma binary_value_bitset N data :
  binary_value (bitset_to_string N data) = (data mod 2 ^ Z.of_nat N)%Z.
Proof.
  induction N as [| N IH].
  - cbn. by rewrite Z.mod_1_r.
  - rewrite bitset_to_string_S, binary_value_cons, IH, bitset_to_string_length.
    rewrite Nat2Z.inj_succ, Z.pow_succ_r by lia.
    rewrite (Z.mul_comm 2), Z.rem_mul_r by lia.
    rewrite <- Z.testbit_spec' by lia.
    destruct (Z.testbit data (Z.of_nat N)); cbn [Z.b2z].
    + rewrite decide_True by done. lia.
    + rewrite decide_False by done. lia.
Qed.

(** The writer reads back a padded payload that holds no terminator. *)
Lemma c_str_app_NUL (text rest : list ascii) :
  NUL ∉ text → c_str (text ++ NUL :: rest) = text.
Proof.
  induction text as [| c text IH]; intros Hno.
  - cbn. by rewrite decide_True.
  - cbn. rewrite decide_False by (intros ->; apply Hno; left).
    f_equal. apply IH. intros Hin. apply Hno. by right.
Qed.

Lemma c_str_padded (text : list ascii) :
  NUL ∉ text → length text < RECORD_SIZE → c_str (padded text) = text.
Proof.
  intros Hno Hlt. unfold padded.
  destruct (RECORD_SIZE - length text) as [| n] eqn:Hn; [lia |].
  cbn [replicate]. by apply c_str_app_NUL.
Qed.

End bitset.

Section numeric.

Implicit Types (N : nat) (data : Z) (uninit : Record) (f : FileOps.t).

(** What [push] leaves alone. *)
Lemma FileOps_push_frame uninit (payload : list ascii) f :
  let f' := final_state (FileOps.push uninit payload f) in
  FileOps.watcher f' = FileOps.watcher f ∧
  FileOps.os f' = FileOps.os f ∧
  FileOps.m_FilePathObj f' = FileOps.m_FilePathObj f ∧
  FileOps.m_isFileOpsRunning f' = FileOps.m_isFileOpsRunning f ∧
  FileOps.m_shutAndExit f' = FileOps.m_shutAndExit f ∧
  FileOps.m_excpPtrVec f' = FileOps.m_excpPtrVec f.
Proof.
  cbn zeta. unfold FileOps.push, FileOps.notify_one.
  destruct (decide (payload = [])); [done |]. msimpl.
  destruct (decide (_ = THRESHOLD)); done.
Qed.

Lemma ofstream_is_open_nonempty file o :
  ofstream_is_open file o = true → file ≠ EmptyString.
Proof.
  unfold ofstream_is_open. intros Hopen.
  apply bool_decide_eq_true in Hopen. by destruct Hopen.
Qed.

Lemma fileExists_static_created file o :
  file ≠ EmptyString → FileOps.fileExists_static file (fs_truncate file o) = true.
Proof.
  intros Hne. unfold FileOps.fileExists_static, fs_exists, fs_truncate.
  rewrite decide_False by done. cbn.
  apply bool_decide_eq_true. rewrite lookup_insert_eq. by eexists.
Qed.

Lemma ensured_projections f :
  FileOps.m_DataRecords (ensured f) = FileOps.m_DataRecords f ∧
  FileOps.m_FilePathObj (ensured f) = FileOps.m_FilePathObj f ∧
  FileOps.watcher (ensured f) = FileOps.watcher f ∧
  (FileOps.m_isFileOpsRunning f = false →
   FileOps.m_isFileOpsRunning (ensured f) = false).
Proof.
  unfold ensured. by destruct (FileOps.fileExists_static _ _).
Qed.

Lemma ensured_exists f :
  destination_ready f = true →
  FileOps.fileExists_static (FileOps.m_FilePathObj (ensured f)) (FileOps.os (ensured f))
    = true.
Proof.
  intros Hready. unfold ensured.
  destruct (destination_ready_cases f) as [[Hex _] | [Hex Hopen]]; rewrite Hex; [done |].
  cbn. apply fileExists_static_created.
  apply (ofstream_is_open_nonempty _ (FileOps.os f)). congruence.
Qed.

(** [writeFile] on a destination that is there or can be created is
    [push] on the object with its file made sure of. *)
Lemma writeFile_ready uninit (payload : list ascii) f :
  payload ≠ [] → destination_ready f = true →
  FileOps.writeFile uninit payload f = FileOps.push uninit payload (ensured f).
Proof.
  intros Hne Hready. unfold ensured.
  destruct (destination_ready_cases f) as [[Hex _] | [Hex Hopen]]; rewrite Hex.
  - by apply writeFile_present.
  - apply writeFile_created; [done .. | congruence].
Qed.

Lemma destination_ready_pushed uninit (payload : list ascii) f :
  FileOps.fileExists_static (FileOps.m_FilePathObj f) (FileOps.os f) = true →
  destination_ready (final_state (FileOps.push uninit payload f)) = true.
Proof.
  intros Hex. unfold destination_ready.
  destruct (FileOps_push_frame uninit payload f) as (_ & -> & -> & _).
  by rewrite Hex.
Qed.

Lemma bitset_to_string_nonempty N data : 0 < N → bitset_to_string N data ≠ [].
Proof.
  intros HN Hnil. apply (f_equal length) in Hnil.
  rewrite bitset_to_string_length in Hnil. cbn in Hnil. lia.
Qed.

(** One numeric write. *)
Lemma writeFile_bitset N uninit data f :
  0 < N → N < RECORD_SIZE →
  length uninit = RECORD_SIZE → destination_ready f = true →
  ∃ f',
    FileOps.writeFile uninit (bitset_to_string N data) f = Returns tt f' ∧
    FileOps.m_DataRecords f' = FileOps.m_DataRecords f ++ [bitset_record N data] ∧
    destination_ready f' = true.
Proof.
  intros HN HN' Hu Hready.
  pose proof (bitset_to_string_nonempty N data HN) as Hne.
  exists (final_state (FileOps.push uninit (bitset_to_string N data) (ensured f))).
  split; [rewrite writeFile_ready by done; apply FileOps_push_returns |].
  split.
  - rewrite FileOps_push_records by done.
    rewrite enqueue_short by (rewrite ?bitset_to_string_length; lia).
    by destruct (ensured_projections f) as (-> & _).
  - apply destination_ready_pushed. by apply ensured_exists.
Qed.

(** The loop of a vector overload. *)
Lemma for_each_writeFile_bitset N uninit (binaryStream : list Z) : ∀ f,
  0 < N → N < RECORD_SIZE →
  length uninit = RECORD_SIZE → destination_ready f = true →
  ∃ f',
    for_each (λ data, FileOps.writeFile uninit (bitset_to_string N data)) binaryStream f
      = Returns tt f' ∧
    FileOps.m_DataRecords f' =
      FileOps.m_DataRecords f ++ (bitset_record N <$> binaryStream).
Proof.
  induction binaryStream as [| data rest IH]; intros f HN HN' Hu Hready.
  - exists f. cbn. by rewrite app_nil_r.
  - destruct (writeFile_bitset N uninit data f) as (f1 & Hw & Hq & Hr); [done .. |].
    destruct (IH f1) as (f' & Hrest & Hq'); [done .. |].
    exists f'. cbn [for_each]. unfold mbind, M_bind. rewrite Hw, Hrest.
    split; [done |]. rewrite Hq', Hq, <- app_assoc. reflexivity.
Qed.

Lemma enqueues_binary_text_bitset N :
  0 < N → N < RECORD_SIZE →
  enqueues_binary_text N (λ uninit data, FileOps.writeFile uninit (bitset_to_string N data)).
Proof.
  intros HN HN' uninit data f Hu Hready.
  destruct (writeFile_bitset N uninit data f) as (f' & Hw & Hq & _); [done .. |].
  exists f'. split; [done |]. split; [done |].
  split; [| split; [apply bitset_to_string_length |
             split; [apply bitset_to_string_digits | apply binary_value_bitset]]].
  unfold trimmed, bitset_record. cbn [fmap list_fmap mjoin list_join].
  rewrite app_nil_r. apply c_str_padded.
  - apply bitset_to_string_no_NUL.
  - by rewrite bitset_to_string_length.
Qed.

Lemma enqueues_each_element_bitset N :
  0 < N → N < RECORD_SIZE →
  enqueues_each_element N
    (λ uninit binaryStream,
       if negb (bool_decide (binaryStream = []))
       then for_each (λ data, FileOps.writeFile uninit (bitset_to_string N data))
                     binaryStream
       else mret tt).
Proof.
  intros HN HN' uninit binaryStream f Hu Hready.
  destruct binaryStream as [| data rest].
  - exists f. cbn. by rewrite app_nil_r.
  - rewrite bool_decide_eq_false_2 by done. cbn [negb].
    by apply for_each_writeFile_bitset.
Qed.

End numeric.

Section scenario_D.

Implicit Types (uninit : Record) (f : FileOps.t).

Lemma ensured_open f :
  ofstream_is_open (FileOps.m_FilePathObj f) (FileOps.os f) = true →
  ofstream_is_open (FileOps.m_FilePathObj (ensured f)) (FileOps.os (ensured f)) = true.
Proof.
  intros Hopen. unfold ensured.
  by destruct (FileOps.fileExists_static _ _).
Qed.

Lemma ensured_content f :
  ofstream_is_open (FileOps.m_FilePathObj f) (FileOps.os f) = true →
  default [] (files (FileOps.os (ensured f)) !! FileOps.m_FilePathObj f) =
    default [] (files (FileOps.os f) !! FileOps.m_FilePathObj f).
Proof.
  intros Hopen. apply ofstream_is_open_nonempty in Hopen.
  unfold ensured.
  destruct (FileOps.fileExists_static _ _) eqn:Hex; [done |].
  unfold FileOps.fileExists_static, fs_exists in Hex.
  rewrite decide_False in Hex by done.
  apply bool_decide_eq_false in Hex.
  cbn. unfold fs_truncate. cbn. rewrite lookup_insert_eq.
  destruct (files (FileOps.os f) !! FileOps.m_FilePathObj f) eqn:Hfile; [| done].
  exfalso. apply Hex. by eexists.
Qed.

Lemma line_of_5_written : FileOps.written [bitset_record 8 5] = line_of_5.
Proof. vm_compute. reflexivity. Qed.

(** Scenario D: the 8-bit value 5 is written to an object whose queue is
    empty and whose file can be opened, and the watcher, woken by the
    shutdown request, drains and writes: the file gains the line
    [00000101]. *)
Lemma FileOps_scenario_D uninit f :
  length uninit = RECORD_SIZE →
  FileOps.watcher f = FileOps.W_WAIT →
  FileOps.m_DataRecords f = [] →
  FileOps.m_isFileOpsRunning f = false →
  ofstream_is_open (FileOps.m_FilePathObj f) (FileOps.os f) = true →
  let f' :=
    FileOps.run [FileOps.ev_dtor_signal; FileOps.ev_watcher; FileOps.ev_watcher;
                 FileOps.ev_watcher; FileOps.ev_watcher]
      (final_state (FileOps.writeFile_uint8_t uninit 5 f)) in
  files (FileOps.os f') !! FileOps.m_FilePathObj f =
    Some (default [] (files (FileOps.os f) !! FileOps.m_FilePathObj f) ++ line_of_5).
Proof.
  intros Hu Hpc Hq Hrun Hopen.
  assert (destination_ready f = true) as Hready
    by (unfold destination_ready; rewrite Hopen; apply orb_true_r).
  unfold FileOps.writeFile_uint8_t.
  rewrite writeFile_ready by (done || by apply bitset_to_string_nonempty; lia).
  set (f1 := final_state (FileOps.push uninit (bitset_to_string 8 5) (ensured f))).
  destruct (ensured_projections f) as (Eq & Ep & Ew & Er).
  destruct (FileOps_push_frame uninit (bitset_to_string 8 5) (ensured f))
    as (Fw & Fo & Fp & Fr & _).
  fold f1 in Fw, Fo, Fp, Fr.
  assert (FileOps.m_DataRecords f1 = [bitset_record 8 5]) as Hq1.
  { subst f1. rewrite FileOps_push_records by (apply bitset_to_string_nonempty; lia).
    rewrite Eq, Hq, enqueue_short; [done .. |].
    rewrite bitset_to_string_length. unfold RECORD_SIZE. lia. }
  cbn zeta.
  destruct (shutdown_while_waiting_drains f1) as (_ & _ & Hos).
  - congruence.
  - by rewrite Hq1.
  - rewrite Fr. by apply Er.
  - rewrite Fp, Fo. by apply ensured_open.
  - rewrite Hos, Hq1, line_of_5_written, Fp, Fo, Ep.
    unfold fs_append. cbn. rewrite lookup_insert_eq.
    by rewrite ensured_content.
Qed.

End scenario_D.

(** C9. On every object whose destination is there or can be created,
    writing an unsigned value of N = 8, 16, 32 or 64 bits enqueues one
    record holding the N characters ['0']/['1'] of the value's binary
    text, most significant bit first, and denoting the value; writing a
    vector enqueues one such record per element, in element order; the
    [DataOps] overloads hand the same text to the sink's [writeDataTo].
    In particular, after the 8-bit value 5 is written and the watcher has
    drained, the destination file has gained the line [00000101]. *)
Theorem numeric_writes_enqueue_binary_text :
  enqueues_binary_text 8 FileOps.writeFile_uint8_t ∧
  enqueues_binary_text 16 FileOps.writeFile_uint16_t ∧
  enqueues_binary_text 32 FileOps.writeFile_uint32_t ∧
  enqueues_binary_text 64 FileOps.writeFile_uint64_t ∧
  enqueues_each_element 8 FileOps.writeFile_vector_uint8_t ∧
  enqueues_each_element 16 FileOps.writeFile_vector_uint16_t ∧
  enqueues_each_element 32 FileOps.writeFile_vector_uint32_t ∧
  enqueues_each_element 64 FileOps.writeFile_vector_uint64_t ∧
  (∀ (writeDataTo : list ascii → M DataOps.t unit) data (d : DataOps.t),
     DataOps.write_uint8_t writeDataTo data d = writeDataTo (bitset_to_string 8 data) d ∧
     DataOps.write_uint16_t writeDataTo data d = writeDataTo (bitset_to_string 16 data) d ∧
     DataOps.write_uint32_t writeDataTo data d = writeDataTo (bitset_to_string 32 data) d ∧
     DataOps.write_uint64_t writeDataTo data d = writeDataTo (bitset_to_string 64 data) d) ∧
  (∀ (writeDataTo : list ascii → M DataOps.t unit) binaryStream,
     DataOps.write_vector_uint8_t writeDataTo binaryStream =
       for_each (DataOps.write_uint8_t writeDataTo) binaryStream ∧
     DataOps.write_vector_uint16_t writeDataTo binaryStream =
       for_each (DataOps.write_uint16_t writeDataTo) binaryStream ∧
     DataOps.write_vector_uint32_t writeDataTo binaryStream =
       for_each (DataOps.write_uint32_t writeDataTo) binaryStream ∧
     DataOps.write_vector_uint64_t writeDataTo binaryStream =
       for_each (DataOps.write_uint64_t writeDataTo) binaryStream) ∧
  (∀ uninit (f : FileOps.t),
     length uninit = RECORD_SIZE →
     FileOps.watcher f = FileOps.W_WAIT →
     FileOps.m_DataRecords f = [] →
     FileOps.m_isFileOpsRunning f = false →
     ofstream_is_open (FileOps.m_FilePathObj f) (FileOps.os f) = true →
     let f' :=
       FileOps.run [FileOps.ev_dtor_signal; FileOps.ev_watcher; FileOps.ev_watcher;
                    FileOps.ev_watcher; FileOps.ev_watcher]
         (final_state (FileOps.writeFile_uint8_t uninit 5 f)) in
     files (FileOps.os f') !! FileOps.m_FilePathObj f =
       Some (default [] (files (FileOps.os f) !! FileOps.m_FilePathObj f) ++ line_of_5)).
Proof.
  repeat match goal with |- _ ∧ _ => split end.
  1-4: apply enqueues_binary_text_bitset; unfold RECORD_SIZE; lia.
  1-4: apply enqueues_each_element_bitset; unfold RECORD_SIZE; lia.
  - intros writeDataTo data d.
    unfold DataOps.write_uint8_t, DataOps.write_uint16_t, DataOps.write_uint32_t,
      DataOps.write_uint64_t, DataOps.write.
    rewrite !decide_False by (apply bitset_to_string_nonempty; lia). done.
  - intros writeDataTo binaryStream.
    unfold DataOps.write_vector_uint8_t, DataOps.write_vector_uint16_t,
      DataOps.write_vector_uint32_t, DataOps.write_vector_uint64_t.
    by destruct binaryStream.
  - apply FileOps_scenario_D.
Qed.

Lemma numeric_writes_enqueue_binary_text_witness :
  length stack_garbage = RECORD_SIZE ∧
  files (FileOps.os
           (FileOps.run [FileOps.ev_dtor_signal; FileOps.ev_watcher; FileOps.ev_watcher;
                         FileOps.ev_watcher; FileOps.ev_watcher]
              (final_state (FileOps.writeFile_uint8_t stack_garbage 5 plain_sink))))
    !! FileOps.m_FilePathObj plain_sink = Some line_of_5.
Proof.
  split; [reflexivity |].
  destruct numeric_writes_enqueue_binary_text
    as (_ & _ & _ & _ & _ & _ & _ & _ & _ & _ & HD).
  apply (HD stack_garbage plain_sink); vm_compute; reflexivity.
Defined.

(** * Further properties of the code *)

(** ** What [push] makes of a payload *)

Section records.

Implicit Types (data text uninit dataRecord : list ascii) (q : BufferQ).

Lemma c_str_prefix data : c_str data `prefix_of` data.
Proof.
  induction data as [| c data IH]; [done |]. cbn.
  destruct (decide (c = NUL)); [apply prefix_nil | by apply prefix_cons].
Qed.


Lemma c_str_no_NUL data : NUL ∉ c_str data.
Proof.
  induction data as [| c data IH]; cbn; [by intros ?%elem_of_nil |].
  destruct (decide (c = NUL)); [by intros ?%elem_of_nil |].
  intros [Heq | Hin]%elem_of_cons; [congruence | done].
Qed.

Lemma c_str_id data : NUL ∉ data → c_str data = data.
Proof.
  induction data as [| c data IH]; intros Hno; [done |]. cbn.
  rewrite decide_False by (intros ->; apply Hno; left).
  f_equal. apply IH. intros Hin. apply Hno. by right.
Qed.




Lemma trimmed_singleton dataRecord : trimmed [dataRecord] = c_str dataRecord.
Proof. unfold trimmed. cbn. by rewrite app_nil_r. Qed.





(** [data.data()] read as a C string, for a view with or without a
    terminator of its own. *)
Lemma c_str_app_in data tail : NUL ∈ data → c_str (data ++ tail) = c_str data.
Proof.
  induction data as [| c data IH]; intros Hin; [by apply elem_of_nil in Hin |].
  cbn. destruct (decide (c = NUL)); [done |].
  apply elem_of_cons in Hin as [Heq | Hin]; [congruence |]. by rewrite IH.
Qed.

Lemma c_str_app_out data tail : NUL ∉ data → c_str (data ++ tail) = data ++ c_str tail.
Proof.
  induction data as [| c data IH]; intros Hno; [done |]. cbn.
  rewrite decide_False by (intros ->; apply Hno; left).
  f_equal. apply IH. intros Hin. apply Hno. by right.
Qed.

(** The block of [push] on a view: it is the block on the view alone when
    the view fits the array or holds a terminator, and on the view
    followed by the storage up to its first terminator otherwise. *)
Lemma enqueue_view_as_enqueue uninit data tail q :
  enqueue_view uninit data tail q =
    enqueue uninit
      (if decide (RECORD_SIZE < length data ∧ NUL ∉ data)
       then data ++ c_str tail else data) q.
Proof.
  unfold enqueue_view, enqueue.
  destruct (decide (RECORD_SIZE < length data ∧ NUL ∉ data)) as [[Hlong Hno] | Hnot].
  - rewrite !decide_True by (rewrite ?length_app; lia).
    rewrite c_str_app_out by done.
    rewrite (c_str_id (data ++ c_str tail)); [done |].
    intros [Hin | Hin]%elem_of_app; [done | by apply c_str_no_NUL in Hin].
  - destruct (decide (RECORD_SIZE < length data)) as [Hlong | Hshort]; [| done].
    rewrite c_str_app_in; [done |].
    destruct (decide (NUL ∈ data)) as [Hin | Hno]; [done |].
    exfalso. by apply Hnot.
Qed.

Lemma push_view_as_push uninit data tail (f : FileOps.t) (d : DataOps.t) :
  let text := if decide (RECORD_SIZE < length data ∧ NUL ∉ data)
              then data ++ c_str tail else data in
  FileOps.push_view uninit data tail f = FileOps.push uninit text f ∧
  DataOps.push_view uninit data tail d = DataOps.push uninit text d.
Proof.
  cbn zeta.
  set (text := if decide (RECORD_SIZE < length data ∧ NUL ∉ data)
               then data ++ c_str tail else data).
  assert (data = [] ↔ text = []) as Hempty.
  { subst text. destruct (decide _) as [[Hlong _] | _]; [| done].
    split; [intros ->; cbn in Hlong; lia | by intros [-> _]%app_eq_nil]. }
  assert (∀ q, enqueue_view uninit data tail q = enqueue uninit text q) as Henq
    by (intros q; apply enqueue_view_as_enqueue).
  clearbody text. split.
  - unfold FileOps.push_view, FileOps.push.
    destruct (decide (data = [])) as [Hnil | Hne], (decide (text = [])) as [Ht | Ht];
      [done | by apply Hempty in Hnil | by apply Hempty in Ht |].
    msimpl. by rewrite !Henq.
  - unfold DataOps.push_view, DataOps.push.
    destruct (decide (data = [])) as [Hnil | Hne], (decide (text = [])) as [Ht | Ht];
      [done | by apply Hempty in Hnil | by apply Hempty in Ht |].
    msimpl. by rewrite !Henq.
Qed.

(** A view whose storage is terminated right after its last byte. *)
Lemma push_view_terminated uninit data tail (f : FileOps.t) (d : DataOps.t) :
  FileOps.push_view uninit data (NUL :: tail) f = FileOps.push uninit data f ∧
  DataOps.push_view uninit data (NUL :: tail) d = DataOps.push uninit data d.
Proof.
  destruct (push_view_as_push uninit data (NUL :: tail) f d) as [-> ->].
  assert (data ++ c_str (NUL :: tail) = data) as ->.
  { cbn [c_str]. rewrite decide_True by done. apply app_nil_r. }
  by destruct (decide _).
Qed.

End records.





(** X3. What [push] does to the object does not depend on what its local
    array held before: no stale byte of the stack reaches a record. *)
Theorem push_ignores_stale_array uninit uninit' data (f : FileOps.t) (d : DataOps.t) :
  length uninit = RECORD_SIZE → length uninit' = RECORD_SIZE →
  FileOps.push uninit data f = FileOps.push uninit' data f ∧
  DataOps.push uninit data d = DataOps.push uninit' data d.
Proof.
  intros Hu Hu'. unfold FileOps.push, DataOps.push.
  destruct (decide (data = [])); [done |]. msimpl.
  by rewrite !(enqueue_uninit uninit uninit').
Qed.

Lemma push_ignores_stale_array_witness :
  FileOps.push stack_garbage payload_2050 plain_sink =
    FileOps.push (replicate RECORD_SIZE NUL) payload_2050 plain_sink.
Proof.
  apply (push_ignores_stale_array stack_garbage (replicate RECORD_SIZE NUL)
           payload_2050 plain_sink DataOps.ctor); reflexivity.
Defined.

(** X4. A non-empty payload shorter than the array becomes one record: the
    payload, then terminators up to the array's size. Without a terminator
    of its own, the payload is what the writer reads back. *)
Theorem short_payload_round_trip uninit data (f : FileOps.t) (d : DataOps.t) :
  length uninit = RECORD_SIZE → data ≠ [] → length data < RECORD_SIZE →
  FileOps.m_DataRecords (final_state (FileOps.push uninit data f)) =
    FileOps.m_DataRecords f ++ [padded data] ∧
  DataOps.m_DataRecords (final_state (DataOps.push uninit data d)) =
    DataOps.m_DataRecords d ++ [padded data] ∧
  length (padded data) = RECORD_SIZE ∧
  take (length data) (padded data) = data ∧
  (∀ i, length data ≤ i < RECORD_SIZE → padded data !! i = Some NUL) ∧
  (NUL ∉ data → trimmed [padded data] = data).
Proof.
  intros Hu Hne Hlt.
  rewrite FileOps_push_records, DataOps_push_records by done.
  rewrite !enqueue_short by (done || lia).
  split; [done |]. split; [done |].
  split; [apply padded_length; lia |].
  split; [apply take_app_length |]. split.
  - intros i Hi. unfold padded. rewrite lookup_app_r by lia.
    apply lookup_replicate_2. lia.
  - intros Hno. rewrite trimmed_singleton. by apply c_str_padded.
Qed.

Lemma short_payload_round_trip_witness :
  trimmed (FileOps.m_DataRecords
             (final_state (FileOps.push stack_garbage late_payload plain_sink)))
    = late_payload.
Proof.
  destruct (short_payload_round_trip stack_garbage late_payload plain_sink DataOps.ctor)
    as (Hf & _ & _ & _ & _ & Hback).
  - reflexivity.
  - discriminate.
  - vm_compute. lia.
  - rewrite Hf. apply Hback. vm_compute.
    intros Hin. repeat (apply elem_of_cons in Hin as [Hin | Hin]; [discriminate |]).
    by apply elem_of_nil in Hin.
Defined.




(** X6. A payload longer than the array is read as a C string: what [push]
    enqueues for it is what it enqueues for the bytes before the first
    terminator, and everything from the terminator on is dropped. *)
Theorem long_payload_stops_at_terminator
    uninit text rest (f : FileOps.t) (d : DataOps.t) :
  length uninit = RECORD_SIZE → NUL ∉ text →
  RECORD_SIZE < length (text ++ NUL :: rest) →
  FileOps.m_DataRecords (final_state (FileOps.push uninit (text ++ NUL :: rest) f)) =
    FileOps.m_DataRecords (final_state (FileOps.push uninit text f)) ∧
  DataOps.m_DataRecords (final_state (DataOps.push uninit (text ++ NUL :: rest) d)) =
    DataOps.m_DataRecords (final_state (DataOps.push uninit text d)).
Proof.
  intros Hu Hno Hlong.
  assert (text ++ NUL :: rest ≠ []) as Hne by (by destruct text).
  assert (∀ q, enqueue uninit (text ++ NUL :: rest) q =
               q ++ pushed_by (op_push uninit text)) as Henq.
  { intros q. rewrite enqueue_app. f_equal.
    unfold enqueue at 1. rewrite decide_True, c_str_app_NUL by done.
    cbn [pushed_by]. destruct (decide (text = [])) as [-> | Htext].
    - by rewrite split_loop_done, decide_True by (done || (cbn [length]; lia)).
    - destruct (decide (RECORD_SIZE < length text)) as [Hl | Hs].
      + unfold enqueue. by rewrite decide_True, c_str_id by done.
      + rewrite split_loop_done, decide_False by (done || lia).
        rewrite enqueue_short by (done || lia).
        by rewrite push_lambda_queue, push_lambda_record by (done || lia). }
  rewrite (FileOps_push_records _ (text ++ _)), (DataOps_push_records _ (text ++ _))
    by done.
  by rewrite !Henq, FileOps_push_pushed, DataOps_push_pushed.
Qed.

Lemma long_payload_stops_at_terminator_witness :
  FileOps.m_DataRecords
    (final_state (FileOps.push stack_garbage (NUL :: payload_2050) plain_sink)) = [].
Proof.
  destruct (long_payload_stops_at_terminator stack_garbage [] payload_2050
              plain_sink DataOps.ctor) as [Hf _].
  - reflexivity.
  - apply not_elem_of_nil.
  - vm_compute. lia.
  - exact Hf.
Defined.

(** ** What every schedule keeps *)

Section invariants.

Import FileOps.
Implicit Types (f : FileOps.t) (e : event) (schedule : list event).

Lemma writeFile_cases uninit (data : list ascii) f :
  final_state (writeFile uninit data f) = f ∨
  final_state (writeFile uninit data f) = set_m_isFileOpsRunning false f ∨
  final_state (writeFile uninit data f) = final_state (push uninit data f) ∨
  final_state (writeFile uninit data f) = final_state (push uninit data (file_created f)).
Proof.
  destruct (decide (data = [])) as [-> | Hne]; [by left |].
  destruct (fileExists_static (m_FilePathObj f) (os f)) eqn:Hex.
  - right; right; left. by rewrite writeFile_present.
  - destruct (ofstream_is_open (m_FilePathObj f) (os f)) eqn:Hopen.
    + right; right; right. by rewrite writeFile_created.
    + right; left. by rewrite writeFile_refused.
Qed.

(** What [push] leaves alone, in full. *)
Lemma push_untouched uninit (data : list ascii) f :
  let f' := final_state (push uninit data f) in
  m_FileName f' = m_FileName f ∧ m_FilePath f' = m_FilePath f ∧
  m_FileExtension f' = m_FileExtension f ∧ m_FilePathObj f' = m_FilePathObj f ∧
  m_shutAndExit f' = m_shutAndExit f ∧ m_isFileOpsRunning f' = m_isFileOpsRunning f ∧
  m_excpPtrVec f' = m_excpPtrVec f ∧ m_watcher f' = m_watcher f ∧
  watcher f' = watcher f ∧ dataq f' = dataq f ∧ os f' = os f.
Proof.
  cbn zeta. unfold push, notify_one.
  destruct (decide (data = [])); [done |]. msimpl.
  destruct (decide (_ = THRESHOLD)); done.
Qed.

(** The flag of a running file operation is down after every atomic
    section that found it down. *)
Lemma step_lowers_flag f e :
  m_isFileOpsRunning f = false → m_isFileOpsRunning (step f e) = false.
Proof.
  intros Hrun. destruct e as [uninit data | uninit data | | |]; cbn [step].
  - destruct (writeFile_cases uninit data f) as [-> | [-> | [-> | ->]]]; try done.
    + by destruct (push_untouched uninit data f) as (_ & _ & _ & _ & _ & -> & _).
    + by destruct (push_untouched uninit data (file_created f))
        as (_ & _ & _ & _ & _ & -> & _).
  - by destruct (push_untouched uninit data f) as (_ & _ & _ & _ & _ & -> & _).
  - unfold keepWatchAndPull_step, pop, writeToFile.
    repeat case_match; simplify_eq/=; done.
  - done.
  - unfold dtor_join. repeat case_match; done.
Qed.

(** The fault list only ever gains null pointers. *)
Lemma step_faults f e :
  m_excpPtrVec (step f e) = m_excpPtrVec f ∨
  m_excpPtrVec (step f e) = m_excpPtrVec f ++ [None].
Proof.
  destruct e as [uninit data | uninit data | | |]; cbn [step].
  - left. destruct (writeFile_cases uninit data f) as [-> | [-> | [-> | ->]]]; try done.
    + by destruct (push_untouched uninit data f) as (_ & _ & _ & _ & _ & _ & -> & _).
    + by destruct (push_untouched uninit data (file_created f))
        as (_ & _ & _ & _ & _ & _ & -> & _).
  - left. by destruct (push_untouched uninit data f) as (_ & _ & _ & _ & _ & _ & -> & _).
  - unfold keepWatchAndPull_step, pop, writeToFile.
    repeat case_match; simplify_eq/=; auto.
  - by left.
  - left. unfold dtor_join. repeat case_match; done.
Qed.

Lemma run_snoc schedule e f : run (schedule ++ [e]) f = step (run schedule f) e.
Proof. unfold run. by rewrite foldl_app. Qed.

End invariants.

(** X7. Along every schedule of producers, watcher and owner, the fault list
    of [FileOps] grows by null pointers only: an object whose list held no
    failure, as after construction, never reports one. *)
Theorem fault_list_never_names_a_failure schedule (f : FileOps.t) :
  Forall (λ p, p = None) (FileOps.m_excpPtrVec f) →
  Forall (λ p, p = None) (FileOps.m_excpPtrVec (FileOps.run schedule f)) ∧
  length (FileOps.m_excpPtrVec f) ≤ length (FileOps.m_excpPtrVec (FileOps.run schedule f)).
Proof.
  intros Hnull. induction schedule as [| e schedule IH] using rev_ind; [done |].
  rewrite run_snoc. destruct IH as [IH1 IH2].
  destruct (step_faults (FileOps.run schedule f) e) as [-> | ->]; [done |].
  split.
  - apply Forall_app. split; [done | by constructor].
  - rewrite length_app. cbn. lia.
Qed.

Lemma fault_list_never_names_a_failure_witness :
  Forall (λ p, p = None)
    (FileOps.m_excpPtrVec
       (FileOps.run [FileOps.ev_watcher; FileOps.ev_watcher; FileOps.ev_watcher]
          unwritable_state)).
Proof.
  apply (fault_list_never_names_a_failure
           [FileOps.ev_watcher; FileOps.ev_watcher; FileOps.ev_watcher]
           unwritable_state).
  vm_compute. repeat constructor.
Defined.

(** ** The shutdown handshake *)

Section shutdown.

Import FileOps.
Implicit Types (f : FileOps.t) (e : event) (schedule : list event).

Lemma step_keeps_shutdown f e :
  m_shutAndExit f = true → m_shutAndExit (step f e) = true.
Proof.
  intros Hshut. destruct e as [uninit data | uninit data | | |]; cbn [step].
  - destruct (writeFile_cases uninit data f) as [-> | [-> | [-> | ->]]]; try done.
    + by destruct (push_untouched uninit data f) as (_ & _ & _ & _ & -> & _).
    + by destruct (push_untouched uninit data (file_created f))
        as (_ & _ & _ & _ & -> & _).
  - by destruct (push_untouched uninit data f) as (_ & _ & _ & _ & -> & _).
  - unfold keepWatchAndPull_step, pop, writeToFile.
    repeat case_match; simplify_eq/=; done.
  - done.
  - unfold dtor_join. repeat case_match; done.
Qed.

(** Only the watcher moves the watcher. *)
Lemma step_keeps_watcher f e :
  e ≠ ev_watcher → watcher (step f e) = watcher f.
Proof.
  intros Hne. destruct e as [uninit data | uninit data | | |]; cbn [step]; try done.
  - destruct (writeFile_cases uninit data f) as [-> | [-> | [-> | ->]]]; try done.
    + by destruct (push_untouched uninit data f)
        as (_ & _ & _ & _ & _ & _ & _ & _ & -> & _).
    + by destruct (push_untouched uninit data (file_created f))
        as (_ & _ & _ & _ & _ & _ & _ & _ & -> & _).
  - by destruct (push_untouched uninit data f)
      as (_ & _ & _ & _ & _ & _ & _ & _ & -> & _).
  - unfold dtor_join. repeat case_match; done.
Qed.

(** With shutdown requested and no file operation running, each section
    of the watcher brings it closer to the end of [keepWatchAndPull]. *)
Lemma watcher_step_progress f :
  m_shutAndExit f = true → m_isFileOpsRunning f = false →
  watcher_rank (watcher (keepWatchAndPull_step f)) ≤ watcher_rank (watcher f) - 1.
Proof.
  intros Hshut Hrun. unfold keepWatchAndPull_step, pop, writeToFile.
  rewrite Hshut, Hrun, orb_true_r.
  repeat case_match; simplify_eq/=; try lia.
  match goal with H : watcher f = W_EXITED |- _ => rewrite H end. cbn. lia.
Qed.

Lemma shutdown_reaches_exit schedule : ∀ f,
  m_shutAndExit f = true → m_isFileOpsRunning f = false →
  watcher_rank (watcher f) ≤ watcher_steps schedule →
  watcher (run schedule f) = W_EXITED.
Proof.
  induction schedule as [| e schedule IH]; intros f Hshut Hrun Hrank.
  - cbn in *. destruct (watcher f); cbn in Hrank; done || lia.
  - change (run (e :: schedule) f) with (run schedule (step f e)).
    apply IH; [by apply step_keeps_shutdown | by apply step_lowers_flag |].
    destruct e as [uninit data | uninit data | | |];
      try (rewrite step_keeps_watcher by discriminate; exact Hrank).
    cbn [watcher_steps] in Hrank. cbn [step].
    pose proof (watcher_step_progress f Hshut Hrun). lia.
Qed.

Lemma fileExists_static_appended file bytes o :
  file ≠ EmptyString → fileExists_static file (fs_append file bytes o) = true.
Proof.
  intros Hne. unfold fileExists_static, fs_exists, fs_append.
  rewrite decide_False by done. cbn.
  apply bool_decide_eq_true. rewrite lookup_insert_eq. by eexists.
Qed.

Lemma fileExists_static_nonempty file o :
  fileExists_static file o = true → file ≠ EmptyString.
Proof. unfold fileExists_static. by destruct (decide (file = EmptyString)). Qed.

(** No event removes the file or moves the object to another one. *)
Lemma step_keeps_file f e :
  fileExists_static (m_FilePathObj f) (os f) = true →
  fileExists_static (m_FilePathObj (step f e)) (os (step f e)) = true.
Proof.
  intros Hex. pose proof (fileExists_static_nonempty _ _ Hex) as Hne.
  destruct e as [uninit data | uninit data | | |]; cbn [step].
  - destruct (decide (data = [])) as [-> | Hdata]; [by rewrite writeFile_empty |].
    rewrite writeFile_present by done.
    by destruct (push_untouched uninit data f)
      as (_ & _ & _ & -> & _ & _ & _ & _ & _ & _ & ->).
  - by destruct (push_untouched uninit data f)
      as (_ & _ & _ & -> & _ & _ & _ & _ & _ & _ & ->).
  - unfold keepWatchAndPull_step, pop, writeToFile.
    repeat case_match; simplify_eq/=; try done.
    by apply fileExists_static_appended.
  - done.
  - unfold dtor_join. repeat case_match; done.
Qed.

Lemma run_keeps_file schedule : ∀ f,
  fileExists_static (m_FilePathObj f) (os f) = true →
  fileExists_static (m_FilePathObj (run schedule f)) (os (run schedule f)) = true.
Proof.
  induction schedule as [| e schedule IH]; intros f Hex; [done |].
  change (run (e :: schedule) f) with (run schedule (step f e)).
  apply IH. by apply step_keeps_file.
Qed.

End shutdown.

(** X9. Shutdown completes for an object whose file is there. Once the
    destructor has raised [m_shutAndExit] on such an object with no file
    operation running, the watcher has left [keepWatchAndPull] after at
    most four sections of its own, whatever producers write or push in
    between, the destructor's join then returns with the thread handle no
    longer joinable, and the file is still there. The file is required to
    be there so that no producer's [writeFile] reaches [createFile]: the
    producers then only push, and nothing but the writer itself touches
    [m_isFileOpsRunning], so the writer never waits for it. *)
Theorem shutdown_completes schedule (f : FileOps.t) :
  FileOps.m_isFileOpsRunning f = false →
  FileOps.fileExists_static (FileOps.m_FilePathObj f) (FileOps.os f) = true →
  4 ≤ watcher_steps schedule →
  let f' := FileOps.run schedule (final_state (FileOps.dtor_signal f)) in
  FileOps.watcher f' = FileOps.W_EXITED ∧
  FileOps.dtor_join f' = Returns tt (FileOps.set_m_watcher false f') ∧
  FileOps.fileExists_static (FileOps.m_FilePathObj f') (FileOps.os f') = true.
Proof.
  intros Hrun Hex Hsteps f'.
  assert (FileOps.watcher f' = FileOps.W_EXITED) as Hexit.
  { apply shutdown_reaches_exit; [reflexivity | exact Hrun |].
    destruct (FileOps.watcher _); cbn; lia. }
  assert (FileOps.fileExists_static (FileOps.m_FilePathObj f') (FileOps.os f') = true)
    as Hthere by (by apply run_keeps_file).
  split; [done |]. split; [| done]. clearbody f'. unfold FileOps.dtor_join.
  rewrite Hexit, decide_True by done.
  destruct f' as [? ? ? ? ? ? ? ? ? joinable ? ? ? ?]. by destruct joinable.
Qed.

Lemma shutdown_completes_witness :
  FileOps.watcher
    (FileOps.run [FileOps.ev_watcher; FileOps.ev_writeFile stack_garbage late_payload;
                  FileOps.ev_watcher; FileOps.ev_watcher; FileOps.ev_watcher]
       (final_state (FileOps.dtor_signal (file_created plain_sink)))) = FileOps.W_EXITED.
Proof.
  apply (shutdown_completes
           [FileOps.ev_watcher; FileOps.ev_writeFile stack_garbage late_payload;
            FileOps.ev_watcher; FileOps.ev_watcher; FileOps.ev_watcher]
           (file_created plain_sink)).
  - reflexivity.
  - vm_compute. reflexivity.
  - cbn. lia.
Defined.

(** ** From payloads to lines and back *)

Section lines.

Import FileOps.
Implicit Types (f : FileOps.t) (payloads : list (list ascii)) (uninit : Record).

Lemma run_lowers_flag schedule f :
  m_isFileOpsRunning f = false → m_isFileOpsRunning (run schedule f) = false.
Proof.
  intros Hrun. induction schedule as [| e schedule IH] using rev_ind; [done |].
  rewrite run_snoc. by apply step_lowers_flag.
Qed.

(** Line payloads pushed one after the other: one padded record each. *)
Lemma push_each_lines uninit payloads : ∀ f,
  length uninit = RECORD_SIZE → Forall line_payload payloads →
  let f' := push_each uninit payloads f in
  m_DataRecords f' = m_DataRecords f ++ (padded <$> payloads) ∧
  m_FilePathObj f' = m_FilePathObj f ∧ m_isFileOpsRunning f' = m_isFileOpsRunning f ∧
  watcher f' = watcher f ∧ os f' = os f.
Proof.
  induction payloads as [| payload payloads IH]; intros f Hu Hlines; cbn zeta.
  - cbn. by rewrite app_nil_r.
  - apply Forall_cons in Hlines as [(Hne & Hlen & _) Hlines].
    change (push_each uninit (payload :: payloads) f)
      with (push_each uninit payloads (final_state (push uninit payload f))).
    destruct (IH (final_state (push uninit payload f)) Hu Hlines)
      as (-> & -> & -> & -> & ->).
    destruct (push_untouched uninit payload f)
      as (_ & _ & _ & -> & _ & -> & _ & _ & -> & _ & ->).
    rewrite FileOps_push_records, enqueue_short by (done || lia).
    by rewrite <- app_assoc.
Qed.


Lemma lines_of_cons (payload : list ascii) payloads :
  lines_of (payload :: payloads) = (payload ++ [newline]) ++ lines_of payloads.
Proof. reflexivity. Qed.


Lemma getlines_line line (payload rest : list ascii) :
  newline ∉ payload →
  getlines line (payload ++ newline :: rest) = (line ++ payload) :: getlines [] rest.
Proof.
  revert line. induction payload as [| c payload IH]; intros line Hno.
  - cbn. by rewrite decide_True, app_nil_r.
  - cbn. rewrite decide_False by (intros ->; apply Hno; left).
    rewrite IH by (intros Hin; apply Hno; by right).
    by rewrite <- app_assoc.
Qed.

(** [std::getline] takes the lines apart again. *)
Lemma getlines_lines_of payloads :
  Forall line_payload payloads →
  c_str <$> getlines [] (lines_of payloads) = payloads.
Proof.
  induction 1 as [| payload payloads (_ & _ & Hno & Hnl) _ IH]; [done |].
  rewrite lines_of_cons, <- app_assoc. cbn [app].
  rewrite getlines_line by done. rewrite fmap_cons, IH, app_nil_l, c_str_id by done.
  reflexivity.
Qed.

Lemma padded_payloads_nonempty payloads :
  payloads ≠ [] → padded <$> payloads ≠ [].
Proof. by destruct payloads. Qed.


End lines.



(** X11. Reading back. On an object with nothing queued and no file
    operation running, whose file holds the lines of line payloads (each
    payload and a line separator, as the writer leaves them) and can be
    opened for reading, [readFile] returns with the object as it was and
    [m_FileContent] holding exactly those payloads, in order, whatever it
    held before. *)
Theorem readFile_returns_the_payloads_written
    (unreadable : gset string) payloads (content : FileOps.DataQ) (f : FileOps.t) :
  Forall line_payload payloads →
  FileOps.m_DataRecords f = [] → FileOps.m_isFileOpsRunning f = false →
  FileOps.m_FilePathObj f ≠ EmptyString → FileOps.m_FilePathObj f ∉ unreadable →
  files (FileOps.os f) !! FileOps.m_FilePathObj f = Some (lines_of payloads) →
  FileOps.readFile unreadable (f, content) = Returns tt (f, payloads).
Proof.
  intros Hlines Hq Hrun Hpath Hread Hfile.
  assert (FileOps.set_m_isFileOpsRunning false f = f) as Hsame
    by (destruct f; cbn in *; by subst).
  unfold FileOps.readFile. rewrite Hq, Hrun, Hsame.
  rewrite decide_False by done.
  rewrite decide_False by (by intros ?).
  unfold fs_exists, ifstream_is_open. rewrite Hfile.
  rewrite !bool_decide_eq_true_2 by (done || by split; [eexists |]).
  change (default [] (Some (lines_of payloads))) with (lines_of payloads).
  by rewrite getlines_lines_of.
Qed.

Lemma readFile_returns_the_payloads_written_witness :
  FileOps.readFile ∅
    (FileOps.set_os
       (fs_append (FileOps.m_FilePathObj plain_sink)
          (lines_of [late_payload; late_payload]) (FileOps.os plain_sink)) plain_sink,
     [["s"; "t"; "a"; "l"; "e"]%char])
  = Returns tt
      (FileOps.set_os
         (fs_append (FileOps.m_FilePathObj plain_sink)
            (lines_of [late_payload; late_payload]) (FileOps.os plain_sink)) plain_sink,
       [late_payload; late_payload]).
Proof.
  assert (line_payload late_payload) as Hline.
  { repeat split; [discriminate | vm_compute; lia | |];
      intros Hin; repeat (apply elem_of_cons in Hin as [Hin | Hin]; [discriminate |]);
      by apply elem_of_nil in Hin. }
  assert (Forall line_payload [late_payload; late_payload]) as Hall
    by (constructor; [done | constructor; [done | constructor]]).
  apply (readFile_returns_the_payloads_written ∅ [late_payload; late_payload]
           [["s"; "t"; "a"; "l"; "e"]%char]);
    [exact Hall | reflexivity | reflexivity | discriminate | apply not_elem_of_empty
    | vm_compute; reflexivity].
Defined.

(** ** The file helpers *)

Section files.

Import FileOps.
Implicit Types (file : string) (o : OS) (unreadable : gset string) (f : FileOps.t).

Lemma isFileEmpty_truncated unreadable file o :
  file ≠ EmptyString → file ∉ unreadable →
  isFileEmpty unreadable file (fs_truncate file o) = true.
Proof.
  intros Hne Hread. unfold isFileEmpty.
  rewrite fileExists_static_created by done.
  unfold ifstream_is_open, fs_truncate. cbn. rewrite lookup_insert_eq.
  rewrite bool_decide_eq_true_2 by (by split; [eexists |]).
  by apply bool_decide_eq_true.
Qed.

Lemma truncate_other file other o :
  other ≠ file → files (fs_truncate file o) !! other = files o !! other.
Proof. intros Hne. unfold fs_truncate. cbn. by rewrite lookup_insert_ne. Qed.

End files.

(** X12. The static [createFile] never touches a file that is there: it
    returns false and leaves the system as it is. When it returns true the
    file was missing, now exists and is empty, and every other file is as
    before; when it returns false nothing has changed. *)
Theorem createFile_static_spares_existing_files
    (unreadable : gset string) (file : string) (o : OS) :
  let created := (FileOps.createFile_static file o).1 in
  let o' := (FileOps.createFile_static file o).2 in
  (FileOps.fileExists_static file o = true → created = false) ∧
  (created = false → o' = o) ∧
  (created = true →
     FileOps.fileExists_static file o = false ∧
     FileOps.fileExists_static file o' = true ∧
     files o' !! file = Some [] ∧
     (file ∉ unreadable → FileOps.isFileEmpty unreadable file o' = true) ∧
     ∀ other, other ≠ file → files o' !! other = files o !! other).
Proof.
  cbn zeta. unfold FileOps.createFile_static.
  destruct (decide (file = EmptyString)) as [-> | Hne].
  { cbn. repeat split; done. }
  rewrite bool_decide_eq_false_2 by done. cbn [orb].
  destruct (FileOps.fileExists_static file o) eqn:Hex; [by repeat split |].
  destruct (ofstream_is_open file o) eqn:Hopen; cbn [fst snd]; [| by repeat split].
  split; [done |]. split; [done |]. intros _.
  split; [done |]. split; [by apply fileExists_static_created |].
  split; [unfold fs_truncate; cbn; by rewrite lookup_insert_eq |].
  split; [by apply isFileEmpty_truncated |].
  intros other Hother. by apply truncate_other.
Qed.

(** X13. The static [clearFile] returns true exactly when the file is there
    and can be opened for writing; the file is then empty and every other
    file is as before. When it returns false nothing has changed. *)
Theorem clearFile_static_empties_the_file
    (unreadable : gset string) (file : string) (o : OS) :
  let cleared := (FileOps.clearFile_static file o).1 in
  let o' := (FileOps.clearFile_static file o).2 in
  (cleared = true ↔
     FileOps.fileExists_static file o = true ∧ ofstream_is_open file o = true) ∧
  (cleared = false → o' = o) ∧
  (cleared = true →
     files o' !! file = Some [] ∧
     (file ∉ unreadable → FileOps.isFileEmpty unreadable file o' = true) ∧
     ∀ other, other ≠ file → files o' !! other = files o !! other).
Proof.
  cbn zeta. unfold FileOps.clearFile_static.
  destruct (FileOps.fileExists_static file o) eqn:Hex;
    [| by repeat split; try done; intros [? ?]].
  destruct (ofstream_is_open file o) eqn:Hopen; cbn [fst snd];
    [| by repeat split; try done; intros [? ?]].
  split; [done |]. split; [done |]. intros _.
  pose proof (ofstream_is_open_nonempty _ _ Hopen) as Hne.
  split; [unfold fs_truncate; cbn; by rewrite lookup_insert_eq |].
  split; [by apply isFileEmpty_truncated |].
  intros other Hother. by apply truncate_other.
Qed.

Lemma createFile_static_spares_existing_files_witness :
  (FileOps.createFile_static "/home/user/log.txt" locked_os).1 = false ∧
  FileOps.fileExists_static "/home/user/log.txt"
    (FileOps.createFile_static "/home/user/log.txt" plain_os).2 = true.
Proof.
  split.
  - apply (createFile_static_spares_existing_files ∅ "/home/user/log.txt" locked_os).
    vm_compute. reflexivity.
  - apply (createFile_static_spares_existing_files ∅ "/home/user/log.txt" plain_os).
    vm_compute. reflexivity.
Defined.

Lemma clearFile_static_empties_the_file_witness :
  (FileOps.clearFile_static "/home/user/log.txt" locked_os).2 = locked_os ∧
  files (FileOps.clearFile_static "/home/user/log.txt"
           (fs_append "/home/user/log.txt" late_payload plain_os)).2
    !! "/home/user/log.txt" = Some [].
Proof.
  split.
  - apply (clearFile_static_empties_the_file ∅ "/home/user/log.txt" locked_os).
    vm_compute. reflexivity.
  - apply (clearFile_static_empties_the_file ∅ "/home/user/log.txt"
             (fs_append "/home/user/log.txt" late_payload plain_os)).
    vm_compute. reflexivity.
Defined.

(** X14. The member [clearFile], called with no file operation running,
    returns. When it returns false the object is as it was. When it
    returns true the only change is that the object's file is empty:
    [getFileSize] is then 0, and [readFile], with nothing queued and the
    file readable, leaves [m_FileContent] empty. *)
Theorem clearFile_leaves_an_empty_file
    (unreadable : gset string) (content : FileOps.DataQ) (f : FileOps.t) :
  FileOps.m_isFileOpsRunning f = false →
  (FileOps.clearFile f = Returns false f ∧
   (FileOps.fileExists_static (FileOps.m_FilePathObj f) (FileOps.os f) = false ∨
    ofstream_is_open (FileOps.m_FilePathObj f) (FileOps.os f) = false)) ∨
  (let f' := FileOps.set_os (fs_truncate (FileOps.m_FilePathObj f) (FileOps.os f)) f in
   FileOps.clearFile f = Returns true f' ∧
   FileOps.getFileSize f' = Returns 0 f' ∧
   (FileOps.m_DataRecords f = [] → FileOps.m_FilePathObj f ∉ unreadable →
    FileOps.readFile unreadable (f', content) = Returns tt (f', []))).
Proof.
  intros Hrun.
  assert (FileOps.set_m_isFileOpsRunning false f = f) as Hsame
    by (destruct f; cbn in *; by subst).
  unfold FileOps.clearFile, FileOps.fileExists. rewrite Hrun. msimpl.
  destruct (FileOps.fileExists_static (FileOps.m_FilePathObj f) (FileOps.os f)) eqn:Hex;
    cbn; [| left; split; [by destruct f; cbn in *; subst | by left]].
  destruct (ofstream_is_open (FileOps.m_FilePathObj f) (FileOps.os f)) eqn:Hopen;
    cbn; [| left; split; [by destruct f; cbn in *; subst | by right]].
  right. pose proof (ofstream_is_open_nonempty _ _ Hopen) as Hne.
  split; [by destruct f; cbn in *; subst |]. split.
  - unfold FileOps.getFileSize, FileOps.fileExists. msimpl.
    rewrite fileExists_static_created by done. cbn.
    unfold fs_file_size, fs_truncate. cbn. by rewrite lookup_insert_eq.
  - intros Hq Hread. unfold FileOps.readFile. cbn.
    rewrite decide_False by done. rewrite Hq, Hrun.
    rewrite decide_False by (by intros ?).
    unfold fs_exists, ifstream_is_open, fs_truncate. cbn. rewrite lookup_insert_eq.
    rewrite !bool_decide_eq_true_2 by (done || by split; [eexists |]).
    cbn. by destruct f; cbn in *; subst.
Qed.

Lemma clearFile_leaves_an_empty_file_witness :
  FileOps.clearFile locked_sink = Returns false locked_sink.
Proof.
  destruct (clearFile_leaves_an_empty_file ∅ [] locked_sink) as [[Hno _] | [Hyes _]].
  - reflexivity.
  - exact Hno.
  - exfalso. vm_compute in Hyes. discriminate Hyes.
Defined.

(** ** The file details *)

Section strings.

Implicit Types (s stem rest : string) (c a : ascii) (i : nat).

Lemma str_find_last_of_none c s :
  str_find_last_of c s = None ↔ str_find c s = None.
Proof.
  induction s as [| a s IH]; [done |]. cbn.
  destruct (decide (a = c)) as [-> | Hne].
  - split; [| done]. by destruct (str_find_last_of c s).
  - destruct (str_find_last_of c s), (str_find c s); cbn in *; intuition congruence.
Qed.

Lemma app_String a s rest : String a s +:+ rest = String a (s +:+ rest).
Proof. reflexivity. Qed.

Lemma app_EmptyString rest : EmptyString +:+ rest = rest.
Proof. reflexivity. Qed.

Lemma str_find_none_app c s rest :
  str_find c s = None → str_find c rest = None → str_find c (s +:+ rest) = None.
Proof.
  intros Hs Hrest. induction s as [| a s IH]; [done |].
  rewrite app_String. cbn in *.
  destruct (decide (a = c)); [done |].
  destruct (str_find c s); [done |]. by rewrite IH.
Qed.

Lemma str_find_app_some c stem e : str_find c (stem +:+ String c e) ≠ None.
Proof.
  induction stem as [| a stem IH].
  - rewrite app_EmptyString. cbn. by rewrite decide_True.
  - rewrite app_String. cbn. destruct (decide (a = c)); [done |].
    by destruct (str_find c (stem +:+ String c e)).
Qed.

(** The last dot of a name that ends in a single extension is the dot of
    the extension. *)
Lemma str_find_last_of_extension c stem e :
  str_find c e = None →
  str_find_last_of c (stem +:+ String c e) = Some (String.length stem).
Proof.
  intros He. induction stem as [| a stem IH].
  - rewrite app_EmptyString. cbn.
    apply str_find_last_of_none in He. rewrite He. by rewrite decide_True.
  - rewrite app_String. cbn. by rewrite IH.
Qed.

Lemma substring_all s : String.substring 0 (String.length s) s = s.
Proof. induction s as [| a s IH]; [done |]. cbn. by rewrite IH. Qed.

Lemma substring_prefix stem rest :
  String.substring 0 (String.length stem) (stem +:+ rest) = stem.
Proof.
  induction stem as [| a stem IH].
  - rewrite app_EmptyString. by destruct rest.
  - rewrite app_String. cbn. by rewrite IH.
Qed.

Lemma str_back_snoc s c : str_back (s +:+ String c EmptyString) = Some c.
Proof.
  induction s as [| a s IH]; [done |]. rewrite app_String. cbn.
  destruct (s +:+ String c EmptyString) eqn:Happ; [by destruct s | done].
Qed.

Lemma str_back_cons a s : s ≠ EmptyString → str_back (String a s) = str_back s.
Proof. by destruct s. Qed.

Lemma str_back_none s : str_back s = None → s = EmptyString.
Proof.
  induction s as [| a s IH]; [done |]. cbn.
  destruct s; [done |]. intros Hs. by apply IH in Hs.
Qed.

Lemma length_append s rest :
  String.length (s +:+ rest) = String.length s + String.length rest.
Proof.
  induction s as [| a s IH]; [done |]. rewrite app_String. cbn. by rewrite IH.
Qed.

Lemma app_cancel_r s1 : ∀ s2 rest, s1 +:+ rest = s2 +:+ rest → s1 = s2.
Proof.
  induction s1 as [| a s1 IH]; intros [| b s2] rest Heq; [done | | |].
  - exfalso. apply (f_equal String.length) in Heq.
    rewrite app_EmptyString, app_String in Heq. cbn [String.length] in Heq.
    rewrite length_append in Heq. lia.
  - exfalso. apply (f_equal String.length) in Heq.
    rewrite app_EmptyString, app_String in Heq. cbn [String.length] in Heq.
    rewrite length_append in Heq. lia.
  - rewrite !app_String in Heq. injection Heq as -> Heq. f_equal. by apply (IH _ rest).
Qed.

(** Cutting a string just after the last occurrence of a character leaves
    a string that ends in it. *)
Lemma str_back_cut c s i :
  str_find_last_of c s = Some i → str_back (String.substring 0 (i + 1) s) = Some c.
Proof.
  revert i. induction s as [| a s IH]; intros i; [done |]. cbn.
  destruct (str_find_last_of c s) as [j |] eqn:Hlast.
  - intros [= <-]. specialize (IH j eq_refl).
    cbn. destruct (String.substring 0 (j + 1) s) eqn:Hsub; [done |].
    done.
  - destruct (decide (a = c)) as [-> |]; [| done].
    intros [= <-]. cbn. by destruct s.
Qed.

Lemma str_find_last_of_lt c s i :
  str_find_last_of c s = Some i → i < String.length s.
Proof.
  revert i. induction s as [| a s IH]; intros i; [done |]. cbn.
  destruct (str_find_last_of c s) as [j |].
  - intros [= <-]. specialize (IH j eq_refl). lia.
  - destruct (decide (a = c)); [| done]. intros [= <-]. lia.
Qed.

Lemma substring_nonempty s : ∀ i m,
  i < String.length s → 0 < m → String.substring i m s ≠ EmptyString.
Proof.
  induction s as [| a s IH]; intros i m Hi Hm; [cbn in Hi; lia |].
  destruct i as [| i]; cbn.
  - by destruct m; [lia |].
  - apply IH; [cbn in Hi; lia | done].
Qed.

(** The rest of a string from the last occurrence of a character on is
    not empty. *)
Lemma substr_from_last c s i :
  str_find_last_of c s = Some i → substr_from i s ≠ EmptyString.
Proof.
  intros Hlast%str_find_last_of_lt. unfold substr_from.
  apply substring_nonempty; lia.
Qed.

End strings.

Section details.

Import FileOps.
Implicit Types (f : FileOps.t) (name path extn : string).

Lemma with_separator_ends path : ends_with_separator (with_separator path).
Proof.
  unfold with_separator, ends_with_separator.
  destruct (decide _) as [Hno | Hyes].
  - left. apply str_back_snoc.
  - destruct (decide (str_back path = Some "/"%char)); [by left |].
    destruct (decide (str_back path = Some backslash)); [by right |].
    exfalso. by apply Hyes.
Qed.

Lemma with_separator_id path : ends_with_separator path → with_separator path = path.
Proof.
  intros Hend. unfold with_separator.
  rewrite decide_False; [done |]. intros [H1 H2]. by destruct Hend.
Qed.

Lemma separator_pair name path :
  (if decide (str_back path ≠ Some "/"%char ∧ str_back path ≠ Some backslash)
   then (name, path +:+ getSeparator) else (name, path))
  = (name, with_separator path).
Proof. unfold with_separator. by destruct (decide _). Qed.

Lemma ends_with_separator_nonempty path : ends_with_separator path → path ≠ EmptyString.
Proof. by intros [H | H] ->. Qed.

(** [populateFilePathObj] when, after the overrides, a name, a path and
    an extension are at hand. *)
Lemma populate_with_path_and_extension d0 d1 d2 f :
  m_isFileOpsRunning f = false →
  let name0 := if decide (d0 = EmptyString) then m_FileName f else d0 in
  let path0 := if decide (d1 = EmptyString) then m_FilePath f else d1 in
  let extn0 := if decide (d2 = EmptyString) then m_FileExtension f else d2 in
  name0 ≠ EmptyString → path0 ≠ EmptyString → extn0 ≠ EmptyString →
  let name' := substr_to (str_find_last_of "."%char name0) name0 +:+ extn0 in
  populateFilePathObj (d0, d1, d2) f =
    Returns tt
      (set_m_isFileOpsRunning false
        (set_m_FilePathObj (with_separator path0 +:+ name')
          (set_m_FileExtension extn0
            (set_m_FilePath (with_separator path0) (set_m_FileName name' f))))).
Proof.
  intros Hrun name0 path0 extn0 Hname Hpath Hextn name'.
  unfold populateFilePathObj. rewrite Hrun.
  fold name0 path0 extn0.
  rewrite (decide_False (P := name0 = EmptyString)) by done.
  rewrite (decide_False (P := extn0 = EmptyString)) by done.
  rewrite (decide_False (P := path0 = EmptyString)) by done.
  fold name'. unfold with_separator.
  by destruct (decide (str_back path0 ≠ Some "/"%char ∧ str_back path0 ≠ Some backslash)).
Qed.

End details.

Section resolved.

Import FileOps.
Implicit Types (f : FileOps.t).

Lemma single_extension_nonempty extn : single_extension extn → extn ≠ EmptyString.
Proof. by intros (e & -> & _). Qed.

(** The stem of a name that ends in a single extension. *)
Lemma stem_of_name stem extn :
  single_extension extn →
  substr_to (str_find_last_of "."%char (stem +:+ extn)) (stem +:+ extn) = stem.
Proof.
  intros (e & -> & He). rewrite str_find_last_of_extension by done.
  cbn [substr_to]. apply substring_prefix.
Qed.

Lemma resolved_after name' path' extn' f :
  single_extension extn' → (∃ stem, name' = stem +:+ extn') →
  ends_with_separator path' →
  resolved
    (set_m_isFileOpsRunning false
      (set_m_FilePathObj (path' +:+ name')
        (set_m_FileExtension extn' (set_m_FilePath path' (set_m_FileName name' f))))).
Proof. intros Hext Hstem Hend. by repeat split. Qed.

End resolved.

(** X15. On an object whose file details are resolved, every setter returns
    with the details resolved again. [setFileName] keeps path and
    extension and, for a bare name, makes the name that name followed by
    the extension. [setFilePath] keeps name and extension and makes the
    path the argument, with a separator appended when it has none.
    [setFileExtension], given a dot followed by dotless text, replaces the
    extension at the end of the name and keeps the path. *)
Theorem setters_keep_details_resolved (f : FileOps.t) :
  resolved f → FileOps.m_isFileOpsRunning f = false →
  (∀ fileName, ∃ f',
     FileOps.setFileName fileName f = Returns tt f' ∧ resolved f' ∧
     FileOps.m_FilePath f' = FileOps.m_FilePath f ∧
     FileOps.m_FileExtension f' = FileOps.m_FileExtension f ∧
     (bare_name fileName →
      FileOps.m_FileName f' = fileName +:+ FileOps.m_FileExtension f)) ∧
  (∀ filePath, ∃ f',
     FileOps.setFilePath filePath f = Returns tt f' ∧ resolved f' ∧
     FileOps.m_FileName f' = FileOps.m_FileName f ∧
     FileOps.m_FileExtension f' = FileOps.m_FileExtension f ∧
     (filePath ≠ EmptyString → FileOps.m_FilePath f' = with_separator filePath)) ∧
  (∀ fileExtension, single_extension fileExtension → ∃ f',
     FileOps.setFileExtension fileExtension f = Returns tt f' ∧ resolved f' ∧
     FileOps.m_FilePath f' = FileOps.m_FilePath f ∧
     FileOps.m_FileExtension f' = fileExtension ∧
     ∀ stem, FileOps.m_FileName f = stem +:+ FileOps.m_FileExtension f →
             FileOps.m_FileName f' = stem +:+ fileExtension).
Proof.
  intros Hres Hrun.
  destruct Hres as (Hext & [stem Hname] & Hend & Hobj).
  assert (resolved f) as Hres by (split; [done | split; [by eexists | by split]]).
  pose proof (single_extension_nonempty _ Hext) as Hextne.
  pose proof (ends_with_separator_nonempty _ Hend) as Hpathne.
  assert (FileOps.m_FileName f ≠ EmptyString) as Hnamene.
  { rewrite Hname. destruct Hext as (e & -> & _). by destruct stem. }
  split; [| split].
  - intros fileName. unfold FileOps.setFileName.
    destruct (decide (fileName = EmptyString ∨ fileName = FileOps.m_FileName f))
      as [Hskip | Hgo].
    { exists f. split; [done |]. split; [done |]. split; [done |]. split; [done |].
      intros (Hne & Hdot & _). destruct Hskip as [-> | Hsame]; [done |].
      exfalso. rewrite Hsame, Hname in Hdot. destruct Hext as (e & He & _).
      rewrite He in Hdot. by apply str_find_app_some in Hdot. }
    assert (fileName ≠ EmptyString) as Hfn by (intros ->; apply Hgo; by left).
    pose proof (populate_with_path_and_extension fileName nullString nullString f Hrun)
      as Hpop. cbn zeta in Hpop. unfold nullString in *.
    rewrite (decide_False (P := fileName = EmptyString)) in Hpop by done.
    rewrite !(decide_True (P := EmptyString = EmptyString)) in Hpop by done.
    rewrite with_separator_id in Hpop by done.
    eexists. split; [by apply Hpop |].
    split; [apply resolved_after; [done | by eexists | done] |].
    split; [done |]. split; [done |].
    intros (_ & Hdot & _). cbn.
    apply str_find_last_of_none in Hdot. by rewrite Hdot.
  - intros filePath. unfold FileOps.setFilePath.
    destruct (decide (filePath = EmptyString ∨ filePath = FileOps.m_FilePath f))
      as [Hskip | Hgo].
    { exists f. split; [done |]. split; [done |]. split; [done |]. split; [done |].
      intros Hne. destruct Hskip as [-> | ->]; [done |].
      by rewrite with_separator_id. }
    assert (filePath ≠ EmptyString) as Hfp by (intros ->; apply Hgo; by left).
    pose proof (populate_with_path_and_extension nullString filePath nullString f Hrun)
      as Hpop. cbn zeta in Hpop. unfold nullString in *.
    rewrite (decide_False (P := filePath = EmptyString)) in Hpop by done.
    rewrite !(decide_True (P := EmptyString = EmptyString)) in Hpop by done.
    rewrite Hname, stem_of_name, <- Hname in Hpop by done.
    eexists. split; [by apply Hpop |].
    split; [apply resolved_after; [done | by eexists | apply with_separator_ends] |].
    done.
  - intros fileExtension Hnew. unfold FileOps.setFileExtension.
    pose proof (single_extension_nonempty _ Hnew) as Hnewne.
    destruct (decide (fileExtension = EmptyString
                      ∨ fileExtension = FileOps.m_FileExtension f)) as [Hskip | Hgo].
    { exists f. destruct Hskip as [-> | ->]; [done |].
      split; [done |]. split; [done |]. split; [done |]. split; [done |].
      intros stem' Hstem'. done. }
    pose proof (populate_with_path_and_extension nullString nullString fileExtension
                  f Hrun) as Hpop. cbn zeta in Hpop. unfold nullString in *.
    rewrite (decide_False (P := fileExtension = EmptyString)) in Hpop by done.
    rewrite !(decide_True (P := EmptyString = EmptyString)) in Hpop by done.
    specialize (Hpop Hnamene Hpathne Hnewne).
    rewrite Hname, stem_of_name, with_separator_id in Hpop by done.
    eexists. split; [exact Hpop |].
    split; [apply resolved_after; [done | by eexists | done] |].
    split; [done |]. split; [done |].
    intros stem' Hstem'. cbn. f_equal.
    rewrite Hname in Hstem'. by apply app_cancel_r in Hstem'.
Qed.

Lemma plain_sink_resolved : resolved plain_sink.
Proof.
  split; [by exists "txt"%string |]. split; [by exists "log"%string |].
  split; [by left | reflexivity].
Qed.

Lemma setters_keep_details_resolved_witness :
  ∃ f', FileOps.setFileName "trace" plain_sink = Returns tt f' ∧
        FileOps.m_FileName f' = "trace.txt"%string.
Proof.
  destruct (setters_keep_details_resolved plain_sink plain_sink_resolved eq_refl)
    as [Hname _].
  destruct (Hname "trace"%string) as (f' & Hset & _ & _ & _ & Hbare).
  exists f'. split; [exact Hset |]. apply Hbare. by repeat split.
Defined.

(** X16. The constructor, given a bare name and neither path nor extension,
    resolves the file to that name with the default extension in the
    current directory; given a name, a path and an extension of the
    expected form, it keeps the extension, ends the path in a separator
    and resolves the details. Either way the object starts with an empty
    queue, no file operation running and the watcher waiting, and the
    file system is untouched: no file is created yet. *)
Theorem ctor_resolves_the_file (o : OS) :
  (∀ fileName, bare_name fileName →
     ∃ f, FileOps.ctor fileName EmptyString EmptyString o = Returns tt f ∧
          resolved f ∧
          FileOps.m_FileName f = fileName +:+ DEFAULT_FILE_EXTN ∧
          FileOps.m_FileExtension f = DEFAULT_FILE_EXTN ∧
          FileOps.m_FilePath f = current_path o +:+ getSeparator ∧
          FileOps.m_DataRecords f = [] ∧ FileOps.m_isFileOpsRunning f = false ∧
          FileOps.watcher f = FileOps.W_WAIT ∧ FileOps.os f = o) ∧
  (∀ fileName filePath fileExtension,
     fileName ≠ EmptyString → filePath ≠ EmptyString → single_extension fileExtension →
     ∃ f, FileOps.ctor fileName filePath fileExtension o = Returns tt f ∧
          resolved f ∧
          FileOps.m_FileExtension f = fileExtension ∧
          FileOps.m_FilePath f = with_separator filePath ∧
          FileOps.m_DataRecords f = [] ∧ FileOps.m_isFileOpsRunning f = false ∧
          FileOps.watcher f = FileOps.W_WAIT ∧ FileOps.os f = o).
Proof.
  split.
  - intros fileName (Hne & Hdot & Hslash & Hback).
    assert (∀ c, str_find c fileName = None → str_find c DEFAULT_FILE_EXTN = None →
                 str_find_last_of c (fileName +:+ DEFAULT_FILE_EXTN) = None) as Hnone.
    { intros c H1 H2. apply str_find_last_of_none. by apply str_find_none_app. }
    unfold FileOps.ctor, FileOps.populateFilePathObj, FileOps.initial_flag.
    cbn [FileOps.m_isFileOpsRunning FileOps.m_FileName FileOps.m_FilePath
         FileOps.m_FileExtension FileOps.os].
    repeat (first [rewrite (decide_False (P := fileName = EmptyString)) by done
                  | rewrite (decide_True (P := EmptyString = EmptyString)) by done];
            cbn beta iota).
    rewrite Hdot.
    rewrite (Hnone "/"%char), (Hnone backslash) by done.
    repeat (rewrite (decide_True (P := EmptyString = EmptyString)) by done;
            cbn beta iota).
    eexists. split; [reflexivity |]. cbn.
    split; [| done].
    split; [by exists "txt"%string |]. split; [by eexists |].
    split; [left; apply str_back_snoc | reflexivity].
  - intros fileName filePath fileExtension Hname Hpath Hext.
    pose proof (single_extension_nonempty _ Hext) as Hextne.
    unfold FileOps.ctor.
    match goal with
    | |- context [FileOps.populateFilePathObj _ ?f0] =>
        pose proof (populate_with_path_and_extension fileName filePath fileExtension
                      f0 eq_refl) as Hpop
    end.
    cbn zeta in Hpop.
    rewrite !(decide_False (P := fileName = EmptyString)),
      !(decide_False (P := filePath = EmptyString)),
      !(decide_False (P := fileExtension = EmptyString)) in Hpop by done.
    specialize (Hpop Hname Hpath Hextne).
    eexists. split; [exact Hpop |].
    split; [apply resolved_after; [done | by eexists | apply with_separator_ends] |].
    cbn. done.
Qed.

Lemma ctor_resolves_the_file_witness :
  ∃ f, FileOps.ctor "log" EmptyString EmptyString plain_os = Returns tt f ∧
       FileOps.m_FileName f = "log.txt"%string.
Proof.
  destruct (ctor_resolves_the_file plain_os) as [Hbare _].
  destruct (Hbare "log"%string) as (f & Hctor & _ & Hname & _); [by repeat split |].
  exists f. split; [exact Hctor | exact Hname].
Defined.

Ltac populated Habs :=
  eexists; split; [reflexivity |]; cbn;
  do 7 (split; [done |]);
  split; [intros Hgiven Hkept; by destruct (Habs Hgiven Hkept) |];
  intros _; split; [done |]; split; [| done].

(** X17. [populateFilePathObj], called with no file operation running,
    returns, whatever the details, and touches nothing but the four file
    details. When a name is at hand after the overrides, the path object
    is the path followed by the name, the path ends in a separator and the
    extension is not empty; when none is, the path object stays as it
    was. *)
Theorem populateFilePathObj_resolves fileName filePath fileExtension (f : FileOps.t) :
  FileOps.m_isFileOpsRunning f = false →
  ∃ f',
    FileOps.populateFilePathObj (fileName, filePath, fileExtension) f = Returns tt f' ∧
    FileOps.m_isFileOpsRunning f' = false ∧
    FileOps.m_DataRecords f' = FileOps.m_DataRecords f ∧
    FileOps.m_dataReady f' = FileOps.m_dataReady f ∧
    FileOps.m_shutAndExit f' = FileOps.m_shutAndExit f ∧
    FileOps.m_excpPtrVec f' = FileOps.m_excpPtrVec f ∧
    FileOps.watcher f' = FileOps.watcher f ∧
    FileOps.os f' = FileOps.os f ∧
    (fileName = EmptyString → FileOps.m_FileName f = EmptyString →
       FileOps.m_FilePathObj f' = FileOps.m_FilePathObj f) ∧
    (fileName ≠ EmptyString ∨ FileOps.m_FileName f ≠ EmptyString →
       FileOps.m_FilePathObj f' = FileOps.m_FilePath f' +:+ FileOps.m_FileName f' ∧
       ends_with_separator (FileOps.m_FilePath f') ∧
       FileOps.m_FileExtension f' ≠ EmptyString).
Proof.
  intros Hrun. unfold FileOps.populateFilePathObj. rewrite Hrun.
  set (name0 := if decide (fileName = EmptyString) then FileOps.m_FileName f else fileName).
  set (path0 := if decide (filePath = EmptyString) then FileOps.m_FilePath f else filePath).
  set (extn0 := if decide (fileExtension = EmptyString)
                then FileOps.m_FileExtension f else fileExtension).
  destruct (decide (name0 = EmptyString)) as [Hn | Hn].
  { eexists. split; [reflexivity |]. cbn. do 7 (split; [done |]).
    split; [done |].
    intros [Hgiven | Hkept]; exfalso; subst name0;
      destruct (decide (fileName = EmptyString)); done. }
  assert (fileName = EmptyString → FileOps.m_FileName f = EmptyString → False) as Habs.
  { intros Hgiven Hkept. apply Hn. subst name0. by rewrite decide_True. }
  destruct (decide (extn0 = EmptyString)) as [He | He].
  - destruct (str_find "."%char name0) as [k |] eqn:Hdot.
    + destruct (str_find_last_of "."%char name0) as [i |] eqn:Hlast.
      2:{ apply str_find_last_of_none in Hlast. congruence. }
      cbn [default].
      pose proof (substr_from_last _ _ _ Hlast) as Hextne.
      destruct (decide (path0 = EmptyString)) as [Hp | Hp].
      * destruct (str_find_last_of "/"%char name0) as [j |] eqn:Hslash.
        { populated Habs. left. by apply str_back_cut. }
        destruct (str_find_last_of backslash name0) as [j |] eqn:Hback.
        { populated Habs. right. by apply str_back_cut. }
        populated Habs. left. apply str_back_snoc.
      * rewrite separator_pair. populated Habs. apply with_separator_ends.
    + destruct (decide (path0 = EmptyString)) as [Hp | Hp].
      * destruct (str_find_last_of "/"%char (name0 +:+ DEFAULT_FILE_EXTN))
          as [j |] eqn:Hslash.
        { populated Habs. left. by apply str_back_cut. }
        destruct (str_find_last_of backslash (name0 +:+ DEFAULT_FILE_EXTN))
          as [j |] eqn:Hback.
        { populated Habs. right. by apply str_back_cut. }
        populated Habs. left. apply str_back_snoc.
      * rewrite separator_pair. populated Habs. apply with_separator_ends.
  - set (name1 := substr_to (str_find_last_of "."%char name0) name0 +:+ extn0).
    destruct (decide (path0 = EmptyString)) as [Hp | Hp].
    + destruct (str_find_last_of "/"%char name1) as [j |] eqn:Hslash.
      { populated Habs. left. by apply str_back_cut. }
      destruct (str_find_last_of backslash name1) as [j |] eqn:Hback.
      { populated Habs. right. by apply str_back_cut. }
      populated Habs. left. apply str_back_snoc.
    + rewrite separator_pair. populated Habs. apply with_separator_ends.
Qed.

Lemma populateFilePathObj_resolves_witness :
  ∃ f', FileOps.populateFilePathObj ("a/b/trace.log"%string, EmptyString, EmptyString)
          (FileOps.set_m_FilePath EmptyString
             (FileOps.set_m_FileExtension EmptyString plain_sink)) = Returns tt f' ∧
        FileOps.m_FilePathObj f' = FileOps.m_FilePath f' +:+ FileOps.m_FileName f'.
Proof.
  destruct (populateFilePathObj_resolves "a/b/trace.log" EmptyString EmptyString
              (FileOps.set_m_FilePath EmptyString
                 (FileOps.set_m_FileExtension EmptyString plain_sink)) eq_refl)
    as (f' & Hpop & _ & _ & _ & _ & _ & _ & _ & _ & Hres).
  exists f'. split; [exact Hpop |]. apply Hres. by left.
Defined.

(** ** Outcomes of the file operations *)

(** X18. [readFile] with nothing queued and no file operation running never
    stays suspended and never changes the object. It throws
    ["File path is empty"] when the path object is empty, leaving
    [m_FileContent] as it was; it throws ["Failed to open file: "] and the
    path when the file is there but cannot be opened for reading, leaving
    [m_FileContent] empty; otherwise it returns with [m_FileContent]
    holding the lines of the file, each cut at its first terminator, and
    with no line at all when the file is missing. *)
Theorem readFile_outcomes
    (unreadable : gset string) (content : FileOps.DataQ) (f : FileOps.t) :
  FileOps.m_DataRecords f = [] → FileOps.m_isFileOpsRunning f = false →
  let path := FileOps.m_FilePathObj f in
  (path = EmptyString →
     FileOps.readFile unreadable (f, content) =
       Throws (runtime_error "File path is empty") (f, content)) ∧
  (path ≠ EmptyString → is_Some (files (FileOps.os f) !! path) → path ∈ unreadable →
     FileOps.readFile unreadable (f, content) =
       Throws (runtime_error ("Failed to open file: " +:+ path)) (f, [])) ∧
  (path ≠ EmptyString → is_Some (files (FileOps.os f) !! path) → path ∉ unreadable →
     FileOps.readFile unreadable (f, content) =
       Returns tt
         (f, c_str <$> FileOps.getlines [] (default [] (files (FileOps.os f) !! path)))) ∧
  (path ≠ EmptyString → files (FileOps.os f) !! path = None →
     FileOps.readFile unreadable (f, content) = Returns tt (f, [])).
Proof.
  intros Hq Hrun path.
  assert (FileOps.set_m_isFileOpsRunning false f = f) as Hsame
    by (destruct f; cbn in *; by subst).
  unfold FileOps.readFile. subst path. rewrite Hq, Hrun, Hsame.
  repeat split.
  - intros Hp. by rewrite decide_True.
  - intros Hp Hex Hun. rewrite decide_False by done.
    rewrite decide_False by (by intros ?).
    unfold fs_exists, ifstream_is_open.
    rewrite bool_decide_eq_true_2 by done.
    by rewrite bool_decide_eq_false_2 by (by intros [_ ?]).
  - intros Hp Hex Hun. rewrite decide_False by done.
    rewrite decide_False by (by intros ?).
    unfold fs_exists, ifstream_is_open.
    by rewrite !bool_decide_eq_true_2 by done.
  - intros Hp Hex. rewrite decide_False by done.
    rewrite decide_False by (by intros ?).
    unfold fs_exists. rewrite Hex.
    by rewrite bool_decide_eq_false_2 by (by intros [? ?]).
Qed.

Lemma readFile_outcomes_witness :
  FileOps.readFile ∅ (plain_sink, [late_payload]) = Returns tt (plain_sink, []).
Proof.
  apply (readFile_outcomes ∅ [late_payload] plain_sink); try reflexivity.
  vm_compute. discriminate.
Defined.

(** X19. The member [createFile] always returns, with the flag of a running
    file operation down. It returns true exactly when the file was
    missing and could be opened for writing; the file is then there and
    empty, so [getFileSize] is 0. When it returns false, a file that was
    there is untouched: the system is as before. *)
Theorem createFile_outcomes (f : FileOps.t) :
  ∃ created f',
    FileOps.createFile f = Returns created f' ∧
    FileOps.m_isFileOpsRunning f' = false ∧
    (created = true ↔
       FileOps.fileExists_static (FileOps.m_FilePathObj f) (FileOps.os f) = false ∧
       ofstream_is_open (FileOps.m_FilePathObj f) (FileOps.os f) = true) ∧
    (created = true →
       f' = file_created f ∧
       files (FileOps.os f') !! FileOps.m_FilePathObj f = Some [] ∧
       FileOps.getFileSize f' = Returns 0 f') ∧
    (created = false → f' = FileOps.set_m_isFileOpsRunning false f).
Proof.
  destruct (FileOps.fileExists_static (FileOps.m_FilePathObj f) (FileOps.os f)) eqn:Hex.
  - exists false, (FileOps.set_m_isFileOpsRunning false f).
    split; [| by repeat split; try done; intros [? ?]].
    unfold FileOps.createFile, FileOps.fileExists. msimpl. by rewrite Hex.
  - destruct (ofstream_is_open (FileOps.m_FilePathObj f) (FileOps.os f)) eqn:Hopen.
    + exists true, (file_created f). rewrite createFile_created by done.
      pose proof (ofstream_is_open_nonempty _ _ Hopen) as Hne.
      repeat split; try done.
      * unfold file_created, fs_truncate. cbn. by rewrite lookup_insert_eq.
      * unfold FileOps.getFileSize, FileOps.fileExists. msimpl.
        rewrite fileExists_static_created by done. cbn.
        unfold fs_file_size, fs_truncate. cbn. by rewrite lookup_insert_eq.
    + exists false, (FileOps.set_m_isFileOpsRunning false f).
      rewrite createFile_refused by done.
      by repeat split; try done; intros [? ?].
Qed.

(** X20. The outcomes of the writer. Given an empty batch it returns at
    once with nothing changed. Given a non-empty batch and no file
    operation running, it returns without throwing, with the flag of a
    running file operation down and the queue and the fault list as they
    were. When the file does not open it writes nothing, leaves the batch
    as it is and stores the failure through [excpPtr]. When the file
    opens and every record of the batch holds a zero cell, it appends
    every record's content up to that cell and a line separator to the
    file, uses the batch up and leaves [excpPtr] alone. (For a record
    without a zero cell [file << data.data()] reads past the array;
    nothing is stated for such a batch.) *)
Theorem writeToFile_outcomes (dataQueue : BufferQ) (excpPtr : exception_ptr) (f : FileOps.t) :
  (dataQueue = [] →
     FileOps.writeToFile dataQueue excpPtr f = Returns (dataQueue, excpPtr) f) ∧
  (dataQueue ≠ [] → FileOps.m_isFileOpsRunning f = false →
   ofstream_is_open (FileOps.m_FilePathObj f) (FileOps.os f) = false →
     ∃ f',
       FileOps.writeToFile dataQueue excpPtr f =
         Returns (dataQueue, Some (runtime_error (FileOps.writing_error f))) f' ∧
       FileOps.m_isFileOpsRunning f' = false ∧
       FileOps.m_excpPtrVec f' = FileOps.m_excpPtrVec f ∧
       FileOps.m_DataRecords f' = FileOps.m_DataRecords f ∧
       FileOps.os f' = FileOps.os f) ∧
  (dataQueue ≠ [] → FileOps.m_isFileOpsRunning f = false →
   ofstream_is_open (FileOps.m_FilePathObj f) (FileOps.os f) = true →
   Forall terminated dataQueue →
     ∃ f',
       FileOps.writeToFile dataQueue excpPtr f = Returns ([], excpPtr) f' ∧
       FileOps.m_isFileOpsRunning f' = false ∧
       FileOps.m_excpPtrVec f' = FileOps.m_excpPtrVec f ∧
       FileOps.m_DataRecords f' = FileOps.m_DataRecords f ∧
       files (FileOps.os f') !! FileOps.m_FilePathObj f =
         Some (default [] (files (FileOps.os f) !! FileOps.m_FilePathObj f)
               ++ FileOps.written dataQueue)).
Proof.
  split; [| split].
  - intros ->. reflexivity.
  - intros Hq Hrun Hopen.
    eexists. split; [by apply writeToFile_unopened |]. done.
  - intros Hq Hrun Hopen _.
    eexists. split; [by apply writeToFile_opened |].
    split; [done |]. split; [done |]. split; [done |].
    cbn. unfold fs_append. cbn. by rewrite lookup_insert_eq.
Qed.

Lemma writeToFile_outcomes_witness :
  (∃ f', FileOps.writeToFile [padded late_payload] None locked_sink =
           Returns ([padded late_payload],
                    Some (runtime_error (FileOps.writing_error locked_sink))) f') ∧
  (∃ f', FileOps.writeToFile [padded late_payload] None (file_created plain_sink) =
           Returns ([], None) f' ∧
         files (FileOps.os f') !! FileOps.m_FilePathObj plain_sink =
           Some (late_payload ++ [FileOps.newline])).
Proof.
  destruct (writeToFile_outcomes [padded late_payload] None locked_sink)
    as (_ & Hfail & _).
  destruct (writeToFile_outcomes [padded late_payload] None (file_created plain_sink))
    as (_ & _ & Hdone).
  split.
  - destruct Hfail as (f' & Hf & _);
      [discriminate | reflexivity | vm_compute; reflexivity |].
    exists f'. exact Hf.
  - destruct Hdone as (f' & Hf & _ & _ & _ & Hfile);
      [discriminate | reflexivity | vm_compute; reflexivity | |].
    + constructor; [| constructor]. unfold terminated, padded.
      apply elem_of_app. right. vm_compute. left.
    + exists f'. split; [exact Hf |]. etransitivity; [exact Hfile |].
      vm_compute. reflexivity.
Defined.

Lemma createFile_outcomes_witness :
  ∃ f', FileOps.createFile plain_sink = Returns true f' ∧
        FileOps.getFileSize f' = Returns 0 f'.
Proof.
  destruct (createFile_outcomes plain_sink) as (created & f' & Hc & _ & Hiff & Hyes & _).
  assert (created = true) as -> by (apply Hiff; split; vm_compute; reflexivity).
  exists f'. split; [exact Hc | by apply Hyes].
Defined.

Lemma iteration_and_check (f : FileOps.t) :
  FileOps.run [FileOps.ev_watcher; FileOps.ev_watcher; FileOps.ev_watcher;
               FileOps.ev_watcher] f
  = FileOps.keepWatchAndPull_step
      (FileOps.run [FileOps.ev_watcher; FileOps.ev_watcher; FileOps.ev_watcher] f).
Proof. reflexivity. Qed.

Lemma signal_iteration_and_check (f : FileOps.t) :
  FileOps.run [FileOps.ev_dtor_signal; FileOps.ev_watcher; FileOps.ev_watcher;
               FileOps.ev_watcher; FileOps.ev_watcher] f
  = FileOps.keepWatchAndPull_step
      (FileOps.run [FileOps.ev_watcher; FileOps.ev_watcher; FileOps.ev_watcher]
         (FileOps.set_notified (S (FileOps.notified f))
            (FileOps.set_m_shutAndExit true f))).
Proof. reflexivity. Qed.

(** X21. A batch whose file did not open is dropped. After such an iteration
    the watcher waits again with the batch left in its local buffer, the
    queue empty and nothing written. When line payloads are pushed next
    and the destructor wakes the watcher, the next iteration clears the
    buffer before it drains: the buffer then holds the records of the new
    payloads only, so the first batch is in no queue, in no buffer and in
    no file. *)
Theorem failed_batch_is_not_retried uninit payloads (f : FileOps.t) :
  length uninit = RECORD_SIZE → Forall line_payload payloads → payloads ≠ [] →
  FileOps.watcher f = FileOps.W_WAIT → FileOps.m_dataReady f = true →
  FileOps.m_shutAndExit f = false → FileOps.m_DataRecords f ≠ [] →
  FileOps.m_isFileOpsRunning f = false →
  ofstream_is_open (FileOps.m_FilePathObj f) (FileOps.os f) = false →
  let f1 := FileOps.run [FileOps.ev_watcher; FileOps.ev_watcher; FileOps.ev_watcher;
                         FileOps.ev_watcher] f in
  let f2 := FileOps.run [FileOps.ev_dtor_signal; FileOps.ev_watcher; FileOps.ev_watcher;
                         FileOps.ev_watcher; FileOps.ev_watcher]
              (FileOps.push_each uninit payloads f1) in
  (FileOps.watcher f1 = FileOps.W_WAIT ∧
   FileOps.dataq f1 = FileOps.m_DataRecords f ∧
   FileOps.m_DataRecords f1 = [] ∧
   FileOps.os f1 = FileOps.os f) ∧
  (FileOps.watcher f2 = FileOps.W_EXITED ∧
   FileOps.dataq f2 = padded <$> payloads ∧
   FileOps.m_DataRecords f2 = [] ∧
   FileOps.os f2 = FileOps.os f).
Proof.
  intros Hu Hlines Hne Hpc Hready Hshut Hq Hrun Hopen. cbv zeta.
  (* the first iteration *)
  assert (FileOps.m_isFileOpsRunning
            (FileOps.run [FileOps.ev_watcher; FileOps.ev_watcher; FileOps.ev_watcher;
                          FileOps.ev_watcher] f) = false) as Hrun1
    by (by apply run_lowers_flag).
  assert (FileOps.watcher
            (FileOps.run [FileOps.ev_watcher; FileOps.ev_watcher; FileOps.ev_watcher;
                          FileOps.ev_watcher] f) = FileOps.W_WAIT ∧
          FileOps.dataq
            (FileOps.run [FileOps.ev_watcher; FileOps.ev_watcher; FileOps.ev_watcher;
                          FileOps.ev_watcher] f) = FileOps.m_DataRecords f ∧
          FileOps.m_DataRecords
            (FileOps.run [FileOps.ev_watcher; FileOps.ev_watcher; FileOps.ev_watcher;
                          FileOps.ev_watcher] f) = [] ∧
          FileOps.os
            (FileOps.run [FileOps.ev_watcher; FileOps.ev_watcher; FileOps.ev_watcher;
                          FileOps.ev_watcher] f) = FileOps.os f ∧
          FileOps.m_FilePathObj
            (FileOps.run [FileOps.ev_watcher; FileOps.ev_watcher; FileOps.ev_watcher;
                          FileOps.ev_watcher] f) = FileOps.m_FilePathObj f)
    as (Hpc1 & Hbuf1 & Hq1 & Hos1 & Hpath1).
  { rewrite iteration_and_check.
    destruct (watcher_iteration f) as (H1 & H2 & _ & H4 & _ & H6 & H7);
      [done | by rewrite Hready | done | done |].
    cbv zeta in H1, H2, H4, H6, H7.
    remember (FileOps.run [FileOps.ev_watcher; FileOps.ev_watcher; FileOps.ev_watcher] f)
      as f3 eqn:Hf3. clear Hf3.
    rewrite Hopen in H7. destruct H7 as [H7 H8].
    rewrite watcher_checks by done. rewrite H4, Hshut. cbn. done. }
  remember (FileOps.run [FileOps.ev_watcher; FileOps.ev_watcher; FileOps.ev_watcher;
                         FileOps.ev_watcher] f) as f1 eqn:Hf1. clear Hf1.
  split; [done |].
  (* the pushes *)
  destruct (push_each_lines uninit payloads f1 Hu Hlines) as (Pq & Pp & Pr & Pw & Po).
  cbv zeta in Pq, Pp, Pr, Pw, Po.
  remember (FileOps.push_each uninit payloads f1) as g eqn:Hg. clear Hg.
  rewrite Hq1, app_nil_l in Pq.
  (* the destructor's signal and the second iteration *)
  rewrite signal_iteration_and_check.
  remember (FileOps.set_notified (S (FileOps.notified g))
              (FileOps.set_m_shutAndExit true g)) as g0 eqn:Hg0.
  assert (FileOps.watcher g0 = FileOps.watcher g ∧
          FileOps.m_shutAndExit g0 = true ∧
          FileOps.m_DataRecords g0 = FileOps.m_DataRecords g ∧
          FileOps.m_isFileOpsRunning g0 = FileOps.m_isFileOpsRunning g ∧
          FileOps.m_FilePathObj g0 = FileOps.m_FilePathObj g ∧
          FileOps.os g0 = FileOps.os g) as (Sw & Ss & Sq & Sr & Sp & So)
    by (by subst g0).
  clear Hg0.
  destruct (watcher_iteration g0) as (G1 & G2 & _ & G4 & _ & _ & G7).
  { congruence. }
  { rewrite Ss. apply orb_true_r. }
  { rewrite Sq, Pq. by apply padded_payloads_nonempty. }
  { congruence. }
  cbv zeta in G1, G2, G4, G7.
  remember (FileOps.run [FileOps.ev_watcher; FileOps.ev_watcher; FileOps.ev_watcher] g0)
    as g3 eqn:Hg3. clear Hg3.
  rewrite Sp, So, Pp, Po, Hpath1, Hos1, Hopen in G7. destruct G7 as [G7 G8].
  rewrite watcher_checks by done. rewrite G4, Ss. cbn.
  rewrite G8, Sq, Pq. done.
Qed.

Lemma failed_batch_is_not_retried_witness :
  FileOps.dataq
    (FileOps.run [FileOps.ev_dtor_signal; FileOps.ev_watcher; FileOps.ev_watcher;
                  FileOps.ev_watcher; FileOps.ev_watcher]
       (FileOps.push_each stack_garbage [late_payload]
          (FileOps.run [FileOps.ev_watcher; FileOps.ev_watcher; FileOps.ev_watcher;
                        FileOps.ev_watcher]
             (FileOps.set_m_dataReady true
                (final_state (FileOps.push stack_garbage late_payload locked_sink))))))
  = [padded late_payload].
Proof.
  assert (line_payload late_payload) as Hline.
  { repeat split; [discriminate | vm_compute; lia | |];
      intros Hin; repeat (apply elem_of_cons in Hin as [Hin | Hin]; [discriminate |]);
      by apply elem_of_nil in Hin. }
  assert (Forall line_payload [late_payload]) as Hall
    by (constructor; [done | constructor]).
  destruct (failed_batch_is_not_retried stack_garbage [late_payload]
              (FileOps.set_m_dataReady true
                 (final_state (FileOps.push stack_garbage late_payload locked_sink))))
    as [_ (_ & Hbuf & _)];
    [vm_compute; reflexivity | exact Hall | discriminate | vm_compute; reflexivity ..
    | vm_compute; discriminate | vm_compute; reflexivity | vm_compute; reflexivity |].
  exact Hbuf.
Defined.
